(** * Frontmatter validation plugin: a shallow embedding of [index.js]

    The plugin receives a schema ([options.specs]) and, for every page the
    host hands to [extendPageData], checks the page's frontmatter against the
    schema, accumulating errors in the closure variable [errorsByPath].  The
    hooks [updated] and [ready] report what has been accumulated.

    The embedding follows the source function by function.  JavaScript values
    are an inductive type; the mutable [errorsByPath] is threaded explicitly;
    a thrown exception is an outcome of its own, and the state reached before
    the throw is kept, as it is in the running program. *)

From Stdlib Require Import Bool List String Ascii ZArith Lia DecimalString.
Import ListNotations.
Open Scope string_scope.
Open Scope list_scope.

(** ** JavaScript values *)

(** Numbers.  The plugin only inspects numbers through [typeof], truthiness,
    [===] and [toString]; finite numbers are represented by integers (the two
    zeros are one value for each of these operations).  Of the text of a
    number the plugin sees no more than its first character, a digit, a
    minus sign or a letter of [NaN] and [Infinity]. *)
Inductive Num : Type :=
| NaN
| Infinity (negative : bool)
| Int (z : Z).

(** What the plugin can observe of an object besides its own properties:
    whether it is callable, the object its [prototype] property holds (for a
    constructor), the references found along its prototype chain, and the
    text its [toString()] yields ([None] when that call throws). *)
Record ObjInfo : Type := mkObjInfo {
  callable : bool;
  prototypeProp : option nat;
  protoChain : list nat;
  text : option string
}.

(** A value.  Objects (arrays and functions included) carry the reference
    that gives them their identity. *)
#[warnings="-register-all"]
Inductive Value : Type :=
| VUndefined
| VNull
| VBool (b : bool)
| VNumber (n : Num)
| VString (s : string)
| VSymbol (id : nat) (description : string)
| VObject (ref : nat) (info : ObjInfo) (props : list (string * Value)).

(** Exceptions.  Every throw the modelled code can reach is a [TypeError]. *)
Inductive Exn : Type :=
| TypeError (message : string).

Inductive Outcome (A : Type) : Type :=
| Done (a : A)
| Thrown (e : Exn).
Arguments Done {A} a.
Arguments Thrown {A} e.

Definition bindO {A B : Type} (o : Outcome A) (k : A -> Outcome B) : Outcome B :=
  match o with
  | Done a => k a
  | Thrown e => Thrown e
  end.

Declare Scope outcome_scope.
Delimit Scope outcome_scope with outcome.
Notation "x <- o ;; k" := (bindO o (fun x => k))
  (at level 61, o at next level, right associativity) : outcome_scope.

(** What the plugin takes from its environment: micromatch's
    [mm(list, patterns)], [JSON.stringify] on an array, and the
    [Symbol.hasInstance] method of a descriptor that has one of its own
    ([None] for a descriptor with no other such method than the one every
    function inherits); calling the method on a value yields a value or
    throws. *)
Record Host : Type := mkHost {
  mm : list string -> list string -> list string;
  JSON_stringify : list Value -> string;
  hasInstance : Value -> option (Value -> Outcome Value)
}.

(** [typeof v] *)
Definition typeof (v : Value) : string :=
  match v with
  | VUndefined => "undefined"
  | VNull => "object"
  | VBool _ => "boolean"
  | VNumber _ => "number"
  | VString _ => "string"
  | VSymbol _ _ => "symbol"
  | VObject _ info _ => if callable info then "function" else "object"
  end.

(** ToBoolean, as used by [!v], [v && ...] and [if (v)]. *)
Definition truthy (v : Value) : bool :=
  match v with
  | VUndefined | VNull => false
  | VBool b => b
  | VNumber NaN => false
  | VNumber (Infinity _) => true
  | VNumber (Int z) => negb (Z.eqb z 0)
  | VString s => negb (String.eqb s EmptyString)
  | VSymbol _ _ => true
  | VObject _ _ _ => true
  end.

Definition num_strict_equal (a b : Num) : bool :=
  match a, b with
  | Infinity x, Infinity y => Bool.eqb x y
  | Int x, Int y => Z.eqb x y
  | _, _ => false
  end.

(** [a === b].  Objects are compared by reference, [NaN] equals nothing. *)
Definition strict_equal (a b : Value) : bool :=
  match a, b with
  | VUndefined, VUndefined => true
  | VNull, VNull => true
  | VBool x, VBool y => Bool.eqb x y
  | VNumber x, VNumber y => num_strict_equal x y
  | VString x, VString y => String.eqb x y
  | VSymbol x _, VSymbol y _ => Nat.eqb x y
  | VObject x _ _, VObject y _ _ => Nat.eqb x y
  | _, _ => false
  end.

Definition num_toString (n : Num) : string :=
  match n with
  | NaN => "NaN"
  | Infinity false => "Infinity"
  | Infinity true => "-Infinity"
  | Int z => NilZero.string_of_int (Z.to_int z)
  end.

(** [v.toString()] *)
Definition toString (v : Value) : Outcome string :=
  match v with
  | VUndefined | VNull => Thrown (TypeError "Cannot read properties of undefined")
  | VBool true => Done "true"
  | VBool false => Done "false"
  | VNumber n => Done (num_toString n)
  | VString s => Done s
  | VSymbol _ d => Done ("Symbol(" ++ d ++ ")")%string
  | VObject _ info _ =>
      match text info with
      | Some s => Done s
      | None => Thrown (TypeError "toString is not a function")
      end
  end.

(** [value instanceof type].  The right-hand side must be an object.  Its
    own [Symbol.hasInstance] method, if it has one, decides; otherwise the
    right-hand side must be callable, and its [prototype] must be an object
    as soon as the left-hand side is one. *)
Definition instanceof (h : Host) (value type : Value) : Outcome bool :=
  match type with
  | VObject _ tinfo _ =>
      match hasInstance h type with
      | Some method => (r <- method value;; Done (truthy r))%outcome
      | None =>
          if callable tinfo then
            match value with
            | VObject _ vinfo _ =>
                match prototypeProp tinfo with
                | Some p => Done (existsb (Nat.eqb p) (protoChain vinfo))
                | None => Thrown (TypeError "Function has non-object prototype")
                end
            | _ => Done false
            end
          else
            Thrown (TypeError "Right-hand side of instanceof is not callable")
      end
  | _ => Thrown (TypeError "Right-hand side of instanceof is not callable")
  end.

(** ** The regular expressions of the source *)

Definition code (c : ascii) : nat := nat_of_ascii c.

(** [\s], on 8-bit code units *)
Definition is_space (c : ascii) : bool :=
  let n := code c in
  (Nat.leb 9 n && Nat.leb n 13) || Nat.eqb n 32 || Nat.eqb n 160.

(** [\w] *)
Definition is_word (c : ascii) : bool :=
  let n := code c in
  (Nat.leb 48 n && Nat.leb n 57)
  || (Nat.leb 65 n && Nat.leb n 90)
  || (Nat.leb 97 n && Nat.leb n 122)
  || Nat.eqb n 95.

Fixpoint skip_spaces (s : string) : string :=
  match s with
  | String c rest => if is_space c then skip_spaces rest else s
  | EmptyString => s
  end.

Fixpoint take_word (s : string) : string :=
  match s with
  | String c rest => if is_word c then String c (take_word rest) else EmptyString
  | EmptyString => EmptyString
  end.

Fixpoint strip_prefix (p s : string) : option string :=
  match p, s with
  | EmptyString, _ => Some s
  | String a p', String b s' => if Ascii.eqb a b then strip_prefix p' s' else None
  | String _ _, EmptyString => None
  end.

(** [s.match(/^\s*function (\w+)/)], reduced to its first capture group *)
Definition match_function_name (s : string) : option string :=
  match strip_prefix "function " (skip_spaces s) with
  | Some rest =>
      match take_word rest with
      | EmptyString => None
      | w => Some w
      end
  | None => None
  end.

(** [simpleCheckRE.test(s)] with
    [simpleCheckRE = /^(String|Number|Boolean|Function|Symbol)$/] *)
Definition simpleCheckRE_test (s : string) : bool :=
  existsb (String.eqb s) ["String"; "Number"; "Boolean"; "Function"; "Symbol"].

Definition lower (c : ascii) : ascii :=
  let n := code c in
  if Nat.leb 65 n && Nat.leb n 90 then ascii_of_nat (n + 32) else c.

(** [s.toLowerCase()] *)
Fixpoint toLowerCase (s : string) : string :=
  match s with
  | String c rest => String (lower c) (toLowerCase rest)
  | EmptyString => EmptyString
  end.

(** ** The type matcher *)

(** [getType(fn)] *)
Definition getType (fn : Value) : Outcome string :=
  if truthy fn then
    (s <- toString fn;;
     Done match match_function_name s with
          | Some name => name
          | None => EmptyString
          end)%outcome
  else Done EmptyString.

Record AssertResult : Type := mkAssertResult {
  valid : bool;
  expectedType : string
}.

(** [assertType(value, type)] *)
Definition assertType (h : Host) (value type : Value)
  : Outcome AssertResult :=
  (expected <- getType type;;
   if simpleCheckRE_test expected then
     let t := typeof value in
     let v := String.eqb t (toLowerCase expected) in
     if negb v && String.eqb t "object" then
       (v' <- instanceof h value type;;
        Done (mkAssertResult v' expected))
     else Done (mkAssertResult v expected)
   else
     (v <- instanceof h value type;;
      Done (mkAssertResult v expected)))%outcome.

(** ** Schema, pages and errors *)

(** One entry of [options.specs]: [{ required, type, allowedValues }].
    [required] and [type] hold whatever value the schema author wrote
    ([VUndefined] when the property is missing); [allowedValues] is [None]
    when the entry has no own property of that name, and an array otherwise. *)
Record FieldSpec : Type := mkFieldSpec {
  required : Value;
  type : Value;
  allowedValues : option (list Value)
}.

(** [options.specs].  Objects list their own enumerable properties in the
    order [Object.keys] yields them. *)
Inductive Specs : Type :=
| SpecsUndefined
| SpecsNull
| SpecsBool (b : bool)
| SpecsNumber (n : Num)
| SpecsString (s : string)
| SpecsSymbol
| SpecsFunction
| SpecsArray (elems : list FieldSpec)
| SpecsObject (fields : list (string * FieldSpec)).

Definition specs_truthy (specs : Specs) : bool :=
  match specs with
  | SpecsUndefined | SpecsNull => false
  | SpecsBool b => b
  | SpecsNumber n => truthy (VNumber n)
  | SpecsString s => truthy (VString s)
  | SpecsSymbol | SpecsFunction | SpecsArray _ | SpecsObject _ => true
  end.

Definition specs_typeof (specs : Specs) : string :=
  match specs with
  | SpecsUndefined => "undefined"
  | SpecsNull => "object"
  | SpecsBool _ => "boolean"
  | SpecsNumber _ => "number"
  | SpecsString _ => "string"
  | SpecsSymbol => "symbol"
  | SpecsFunction => "function"
  | SpecsArray _ | SpecsObject _ => "object"
  end.

(** The page handed to [extendPageData]; [frontmatter] lists the own
    properties of the frontmatter object in [Object.keys] order. *)
Record Page : Type := mkPage {
  regularPath : string;
  frontmatter : list (string * Value)
}.

(** The error objects pushed by [extendPageData], one constructor per value
    of their [error] property. *)
Inductive Violation : Type :=
| MISSING_KEY (key : string)
| EMPTY_KEY
| INVALID_KEY (key : string)
| EMPTY_VALUE (key : string)
| INVALID_TYPE (key : string) (expected : string) (got : string)
| INVALID_VALUE (key : string) (expected : string) (got : Value).

(** [errorsByPath]: a plain object from path to array of errors, its keys in
    insertion order, which is the order of [Object.keys] for paths that are
    no array indices. *)
Definition Collector : Type := list (string * list Violation).

(** What the plugin does to the outside world. *)
Inductive Effect : Type :=
| LogNoSpecs
| LogInvalidSpecsType (got : string)
| ConsoleReport (errors : Collector)
| DumpErrorsToFile (errors : Collector) (fileName : string) (sourceDir : string)
| AbortBuild.

Record Options : Type := mkOptions {
  specs : Specs;
  exclude : option (list string);
  postProcessErrors : option (Collector -> string -> Collector);
  dumpToFile : bool;
  dumpFileOption : option string;
  abortBuild : bool
}.

(** ** Property access on plain objects *)

Fixpoint lookup {A : Type} (k : string) (l : list (string * A)) : option A :=
  match l with
  | [] => None
  | (k', a) :: rest => if String.eqb k' k then Some a else lookup k rest
  end.

Definition Object_keys {A : Type} (l : list (string * A)) : list string :=
  map fst l.

(** [keys.indexOf(k) === -1] *)
Definition indexOf_is_minus_one (keys : list string) (k : string) : bool :=
  negb (existsb (String.eqb k) keys).

Definition index_key (i : nat) : string :=
  NilZero.string_of_uint (Nat.to_uint i).

Fixpoint indexed_from {A : Type} (i : nat) (l : list A) : list (string * A) :=
  match l with
  | [] => []
  | a :: rest => (index_key i, a) :: indexed_from (S i) rest
  end.

(** Own enumerable properties of the schema, in key order. *)
Definition specs_entries (specs : Specs) : list (string * FieldSpec) :=
  match specs with
  | SpecsObject fields => fields
  | SpecsArray elems => indexed_from 0 elems
  | _ => []
  end.

(** What reading [.type] and testing [hasOwn(_, 'allowedValues')] give on a
    value with neither property, such as the number an array's [length] is. *)
Definition no_spec : FieldSpec := mkFieldSpec VUndefined VUndefined None.

(** [hasOwn(specs, key)] together with [specs[key]]: the own property, if
    any.  An array also owns [length]. *)
Definition specs_own (specs : Specs) (key : string) : option FieldSpec :=
  match specs with
  | SpecsArray elems =>
      if String.eqb key "length" then Some no_spec
      else lookup key (indexed_from 0 elems)
  | _ => lookup key (specs_entries specs)
  end.

(** lodash's [pickBy(object, predicate)] *)
Definition pickBy {A : Type} (l : list (string * A)) (p : A -> bool)
  : list (string * A) :=
  filter (fun kv => p (snd kv)) l.

(** ** The error collector *)

(** Names every plain object inherits from [Object.prototype]; reading one
    of them on [errorsByPath] yields a truthy value that is no array. *)
Definition Object_prototype_names : list string :=
  [ "constructor"; "__defineGetter__"; "__defineSetter__"; "hasOwnProperty";
    "__lookupGetter__"; "__lookupSetter__"; "isPrototypeOf";
    "propertyIsEnumerable"; "toString"; "valueOf"; "__proto__";
    "toLocaleString" ].

Definition inherited (k : string) : bool :=
  existsb (String.eqb k) Object_prototype_names.

(** [errors[path].push(error)] on an own entry *)
Fixpoint push (path : string) (error : Violation) (errors : Collector)
  : Collector :=
  match errors with
  | [] => []
  | (p, l) :: rest =>
      if String.eqb p path then (p, (l ++ [error])) :: rest
      else (p, l) :: push path error rest
  end.

(** Code that mutates [errorsByPath] and may throw. *)
Definition M (A : Type) : Type := Collector -> Outcome A * Collector.

Definition ret {A : Type} (a : A) : M A := fun errors => (Done a, errors).

Definition bind {A B : Type} (m : M A) (k : A -> M B) : M B :=
  fun errors =>
    match m errors with
    | (Done a, errors') => k a errors'
    | (Thrown e, errors') => (Thrown e, errors')
    end.

Definition lift {A : Type} (o : Outcome A) : M A := fun errors => (o, errors).

Declare Scope m_scope.
Delimit Scope m_scope with M.
Notation "x <- m ;; k" := (bind m (fun x => k))
  (at level 61, m at next level, right associativity) : m_scope.
Notation "m ;; k" := (bind m (fun _ => k))
  (at level 61, right associativity) : m_scope.

(** [list.forEach(f)]; a throw in [f] ends the loop. *)
Fixpoint forEach {A : Type} (f : A -> M unit) (l : list A) : M unit :=
  match l with
  | [] => ret tt
  | a :: rest => (f a ;; forEach f rest)%M
  end.

(** [addError(errors, path, error)] *)
Definition addError (path : string) (error : Violation) : M unit :=
  fun errors =>
    match lookup path errors with
    | Some _ => (Done tt, push path error errors)
    | None =>
        if inherited path
        then (Thrown (TypeError "errors[path].push is not a function"), errors)
        else (Done tt, push path error (errors ++ [(path, [])]))
    end.

(** [assertAllowedValue(value, allowedValues)]: [indexOf] compares with
    [===]. *)
Definition assertAllowedValue (value : Value) (allowed : list Value) : bool :=
  existsb (strict_equal value) allowed.

(** [object[key]] for one of the object's own keys *)
Definition get (object : list (string * Value)) (key : string) : Value :=
  match lookup key object with
  | Some v => v
  | None => VUndefined
  end.

(** [value === null || typeof value === 'undefined'] *)
Definition is_empty_value (value : Value) : bool :=
  strict_equal value VNull || String.eqb (typeof value) "undefined".

(** ** The hooks *)

(** The callback of [Object.keys(frontmatter).forEach] *)
Definition checkKey (h : Host) (specs : Specs) (page : Page) (key : string)
  : M unit :=
  let path := regularPath page in
  if negb (truthy (VString key)) then addError path EMPTY_KEY
  else
    match specs_own specs key with
    | None => addError path (INVALID_KEY key)
    | Some spec =>
        let value := get (frontmatter page) key in
        if is_empty_value value then addError path (EMPTY_VALUE key)
        else
          (assertResult <- lift (assertType h value (type spec)) ;;
           if negb (valid assertResult) then
             (expected <- lift (getType (type spec)) ;;
              addError path (INVALID_TYPE key expected (typeof value)))
           else
             match allowedValues spec with
             | Some allowed =>
                 if negb (assertAllowedValue value allowed)
                 then addError path
                        (INVALID_VALUE key (JSON_stringify h allowed) value)
                 else ret tt
             | None => ret tt
             end)%M
    end.

(** The callback of [Object.keys(requiredFields).forEach] *)
Definition checkRequired (page : Page) (fieldName : string) : M unit :=
  if indexOf_is_minus_one (Object_keys (frontmatter page)) fieldName
  then addError (regularPath page) (MISSING_KEY fieldName)
  else ret tt.

Definition is_required (s : FieldSpec) : bool :=
  strict_equal (required s) (VBool true).

(** [const exclude = options.exclude || []] *)
Definition exclude_patterns (options : Options) : list string :=
  match exclude options with
  | Some patterns => patterns
  | None => []
  end.

(** [extendPageData($page)] *)
Definition extendPageData (h : Host) (options : Options) (page : Page)
  : M unit :=
  let matchesExclude := mm h [regularPath page] (exclude_patterns options) in
  if negb (Nat.eqb (List.length matchesExclude) 0) then ret tt
  else
    let requiredFields := pickBy (specs_entries (specs options)) is_required in
    (forEach (checkRequired page) (Object_keys requiredFields) ;;
     forEach (checkKey h (specs options) page)
             (Object_keys (frontmatter page)))%M.

Definition dumpFile : string := "./frontmatter-errors.json".

(** [updated()]: the effects, and [errorsByPath] afterwards *)
Definition updated (errors : Collector) : list Effect * Collector :=
  if negb (Nat.eqb (List.length (Object_keys errors)) 0)
  then ([ConsoleReport errors], errors)
  else ([], errors).

(** [ready()]; [sourceDir] is [ctx.sourceDir], the one field of [ctx] the
    plugin reads.  The hook [postProcessErrors], when there is one, returns a
    mapping, and the dump file gets written: what [ready] does when the hook
    returns something else or the write fails is not modelled. *)
Definition ready (options : Options) (sourceDir : string) (errors : Collector)
  : list Effect * Collector :=
  let errors1 :=
    match postProcessErrors options with
    | Some f => f errors sourceDir
    | None => errors
    end in
  if negb (Nat.eqb (List.length (Object_keys errors1)) 0) then
    let report := [ConsoleReport errors1] in
    let dump :=
      if dumpToFile options
      then [DumpErrorsToFile errors1
              match dumpFileOption options with
              | Some f => if truthy (VString f) then f else dumpFile
              | None => dumpFile
              end
              sourceDir]
      else [] in
    let abort := if abortBuild options then [AbortBuild] else [] in
    ((report ++ dump ++ abort), [])
  else ([], errors1).

(** What [module.exports] returns: the bare [{ name }] or the object with
    the three hooks. *)
Inductive Plugin : Type :=
| NameOnly
| WithHooks.

(** [module.exports(options, ctx)] *)
Definition module_exports (options : Options) : list Effect * Plugin :=
  if negb (specs_truthy (specs options)) then ([LogNoSpecs], NameOnly)
  else if negb (String.eqb (specs_typeof (specs options)) "object")
  then ([LogInvalidSpecsType (specs_typeof (specs options))], NameOnly)
  else ([], WithHooks).

(** ** The host

    VuePress calls the hooks the plugin object has, in whatever order the
    build or the development server dictates.  A throw inside a hook leaves
    [errorsByPath] as it was at the throw. *)
Inductive HookCall : Type :=
| CallExtendPageData (page : Page)
| CallUpdated
| CallReady.

Definition call (h : Host) (options : Options) (sourceDir : string)
  (c : HookCall) (errors : Collector) : list Effect * Collector :=
  match c with
  | CallExtendPageData page => ([], snd (extendPageData h options page errors))
  | CallUpdated => updated errors
  | CallReady => ready options sourceDir errors
  end.

Fixpoint calls (h : Host) (options : Options) (sourceDir : string)
  (cs : list HookCall) (errors : Collector) : list Effect * Collector :=
  match cs with
  | [] => ([], errors)
  | c :: rest =>
      let (out1, errors1) := call h options sourceDir c errors in
      let (out2, errors2) := calls h options sourceDir rest errors1 in
      ((out1 ++ out2), errors2)
  end.

(** One process: the plugin is created, [errorsByPath] starts as [{}], and
    the hooks, if there are any, are called. *)
Definition run (h : Host) (options : Options) (sourceDir : string)
  (cs : list HookCall) : list Effect * Collector :=
  match module_exports options with
  | (out, NameOnly) => (out, [])
  | (out, WithHooks) =>
      let (out', errors) := calls h options sourceDir cs [] in
      ((out ++ out'), errors)
  end.

(** ** Derived notions used in the statements *)

(** The errors recorded under [path]. *)
Definition violations_of (path : string) (errors : Collector)
  : list Violation :=
  match lookup path errors with
  | Some l => l
  | None => []
  end.

(** Appending one error under [path], creating the entry when it is
    missing; and appending a list of errors, one after the other. *)
Definition record1 (path : string) (v : Violation) (errors : Collector)
  : Collector :=
  match lookup path errors with
  | Some _ => push path v errors
  | None => (errors ++ [(path, [v])])
  end.

Definition record (path : string) (vs : list Violation) (errors : Collector)
  : Collector :=
  fold_left (fun acc v => record1 path v acc) vs errors.

(** What a piece of code records for [path] when it starts from [{}]. *)
Definition emitted (m : M unit) (path : string) : list Violation :=
  violations_of path (snd (m [])).

(** The key an error is about; [EMPTY_KEY] is about the empty key. *)
Definition key_of (v : Violation) : string :=
  match v with
  | EMPTY_KEY => EmptyString
  | MISSING_KEY k | INVALID_KEY k | EMPTY_VALUE k
  | INVALID_TYPE k _ _ | INVALID_VALUE k _ _ => k
  end.

(** The invariant of the collector: no path maps to an empty array. *)
Definition entries_nonempty (errors : Collector) : Prop :=
  Forall (fun entry => snd entry <> []) errors.

(** Deep equality: same shape and same contents, whatever the references. *)
Fixpoint deep_equal (a b : Value) : bool :=
  match a, b with
  | VObject _ ia pa, VObject _ ib pb =>
      Bool.eqb (callable ia) (callable ib)
      && (fix props_equal (l1 l2 : list (string * Value)) : bool :=
            match l1, l2 with
            | [], [] => true
            | (k1, v1) :: r1, (k2, v2) :: r2 =>
                String.eqb k1 k2 && deep_equal v1 v2 && props_equal r1 r2
            | _, _ => false
            end) pa pb
  | VNumber NaN, VNumber NaN => true
  | _, _ => strict_equal a b
  end.

(** The three things a callback of the key loop can do: call [addError]
    once with an error about its key, do nothing, or throw before recording
    anything. *)
Definition Shape (path key : string) (m : M unit) : Prop :=
  (exists v, key_of v = key /\ forall errors, m errors = addError path v errors)
  \/ (forall errors, m errors = (Done tt, errors))
  \/ (exists e, forall errors, m errors = (Thrown e, errors)).

(** [m] ends with outcome [o] after recording [vs] under [path], whatever
    the collector holds when it starts. *)
Definition Uniform (path : string) (m : M unit) (o : Outcome unit)
  (vs : list Violation) : Prop :=
  forall errors, m errors = (o, record path vs errors).

(** A loop over callbacks that each end with [fst (g a)] after recording
    [snd (g a)]: the loop stops at the first throw. *)
Fixpoint sweep {A : Type} (g : A -> Outcome unit * list Violation)
  (l : list A) : Outcome unit * list Violation :=
  match l with
  | [] => (Done tt, [])
  | a :: rest =>
      match g a with
      | (Done _, vs) => let (o, ws) := sweep g rest in (o, vs ++ ws)
      | (Thrown e, vs) => (Thrown e, vs)
      end
  end.

(** The errors of a list that are about a given key. *)
Definition errors_about (key : string) (vs : list Violation)
  : list Violation :=
  filter (fun v => String.eqb (key_of v) key) vs.

Definition count_key (k : string) (vs : list Violation) : nat :=
  List.length (filter (fun v => String.eqb (key_of v) k) vs).

(** One MISSING_KEY per required field that is not among the keys of the
    frontmatter, in schema order. *)
Definition missing_keys (specs : Specs) (page : Page) : list Violation :=
  map MISSING_KEY
    (filter (indexOf_is_minus_one (Object_keys (frontmatter page)))
       (Object_keys (pickBy (specs_entries specs) is_required))).

(** Every required field of the schema is a key of the frontmatter, with a
    value the type matcher accepts and, when the entry has [allowedValues],
    one of them. *)
Definition required_fields_valid (h : Host) (specs : Specs) (page : Page)
  : Prop :=
  forall name spec,
    In (name, spec) (specs_entries specs) -> is_required spec = true ->
    let value := get (frontmatter page) name in
    In name (Object_keys (frontmatter page))
    /\ (exists r, assertType h value (type spec) = Done r /\ valid r = true)
    /\ (forall allowed, allowedValues spec = Some allowed ->
                        assertAllowedValue value allowed = true).

(** Every key of the frontmatter is non-empty and declared, with a value
    that is neither [null] nor [undefined], that the type matcher accepts
    and that is, when the entry has [allowedValues], one of them. *)
Definition every_key_valid (h : Host) (specs : Specs) (page : Page) : Prop :=
  forall key,
    In key (Object_keys (frontmatter page)) ->
    let value := get (frontmatter page) key in
    key <> EmptyString
    /\ exists spec r,
         specs_own specs key = Some spec
         /\ is_empty_value value = false
         /\ assertType h value (type spec) = Done r /\ valid r = true
         /\ (forall allowed, allowedValues spec = Some allowed ->
                             assertAllowedValue value allowed = true).

(** ** The console report *)

(** The lines [generateConsoleReport] prints, colours left out: the header,
    one line per path, the lines of each error, and the empty lines. *)
Inductive Line : Type :=
| ReportHeader
| PathLine (path : string)
| ErrorLine (error : string)
| FieldErrorLine (error : string) (key : string)
| ExpectedLine (expected : Value)
| GotLine (got : Value)
| EmptyLine.

(** The properties [error], [expected] and [got] of an error object;
    [undefined] when the object has none. *)
Definition error_name (e : Violation) : string :=
  match e with
  | MISSING_KEY _ => "MISSING_KEY"
  | EMPTY_KEY => "EMPTY_KEY"
  | INVALID_KEY _ => "INVALID_KEY"
  | EMPTY_VALUE _ => "EMPTY_VALUE"
  | INVALID_TYPE _ _ _ => "INVALID_TYPE"
  | INVALID_VALUE _ _ _ => "INVALID_VALUE"
  end.

Definition error_expected (e : Violation) : Value :=
  match e with
  | INVALID_TYPE _ expected _ | INVALID_VALUE _ expected _ => VString expected
  | _ => VUndefined
  end.

Definition error_got (e : Violation) : Value :=
  match e with
  | INVALID_TYPE _ _ got => VString got
  | INVALID_VALUE _ _ got => got
  | _ => VUndefined
  end.

(** The callback of [errorsOnFile.forEach] *)
Definition error_lines (e : Violation) : list Line :=
  match e with
  | EMPTY_KEY => [ErrorLine (error_name e)]
  | _ =>
      FieldErrorLine (error_name e) (key_of e)
      :: (if truthy (error_expected e) then [ExpectedLine (error_expected e)]
          else [])
      ++ (if truthy (error_got e) then [GotLine (error_got e)] else [])
  end.

(** [generateConsoleReport(errors)] *)
Definition generateConsoleReport (errors : Collector) : list Line :=
  ReportHeader
  :: flat_map
       (fun path =>
          PathLine path
          :: flat_map error_lines (violations_of path errors) ++ [EmptyLine])
       (Object_keys errors)
  ++ [EmptyLine].

Definition is_PathLine (l : Line) : bool :=
  match l with
  | PathLine _ => true
  | _ => false
  end.

(** ** Further notions used in the statements *)

Fixpoint all_word (s : string) : bool :=
  match s with
  | EmptyString => true
  | String c rest => is_word c && all_word rest
  end.

Fixpoint all_space (s : string) : bool :=
  match s with
  | EmptyString => true
  | String c rest => is_space c && all_space rest
  end.

(** The first character of [s], if any, is no word character. *)
Definition word_ends (s : string) : bool :=
  match s with
  | EmptyString => true
  | String c _ => negb (is_word c)
  end.

(** A constructor: callable, with an object as [prototype] and a
    [toString] that returns. *)
Definition is_constructor (v : Value) : bool :=
  match v with
  | VObject _ info _ =>
      callable info
      && match prototypeProp info with Some _ => true | None => false end
      && match text info with Some _ => true | None => false end
  | _ => false
  end.

(** The name of the constructor of a primitive value. *)
Definition primitive_name (v : Value) : string :=
  match v with
  | VBool _ => "Boolean"
  | VNumber _ => "Number"
  | VString _ => "String"
  | VSymbol _ _ => "Symbol"
  | _ => EmptyString
  end.

Definition is_primitive (v : Value) : bool :=
  match v with
  | VBool _ | VNumber _ | VString _ | VSymbol _ _ => true
  | _ => false
  end.

(** What the key loop records for a key the schema does not declare. *)
Definition undeclared_key_error (key : string) : Violation :=
  if String.eqb key EmptyString then EMPTY_KEY else INVALID_KEY key.

(** ** Sample values *)

Definition Object_prototype : nat := 100.
Definition Function_prototype : nat := 101.
Definition String_prototype : nat := 102.
Definition Number_prototype : nat := 103.

Definition builtin (ref : nat) (name : string) (proto : nat) : Value :=
  VObject ref
    (mkObjInfo true (Some proto) [Function_prototype; Object_prototype]
       (Some ("function " ++ name ++ "() { [native code] }")%string))
    [].

Definition String_ : Value := builtin 1 "String" String_prototype.
Definition Number_ : Value := builtin 2 "Number" Number_prototype.
Definition Object_ : Value := builtin 4 "Object" Object_prototype.

(** [{ a: 1 }], allocated at [ref] *)
Definition sample_object (ref : nat) : Value :=
  VObject ref (mkObjInfo false None [Object_prototype] (Some "[object Object]"))
    [("a", VNumber (Int 1))].

Definition quote : string := String (ascii_of_nat 34) EmptyString.

(** A host for the examples: patterns without wildcards, a
    [JSON.stringify] that is right on arrays of plain strings, and no
    descriptor with a [Symbol.hasInstance] of its own. *)
Definition sample_host : Host :=
  mkHost
    (fun paths patterns =>
       filter (fun p => existsb (String.eqb p) patterns) paths)
    (fun values =>
       ("[" ++ String.concat ","
                 (map (fun v => match v with
                                | VString s => quote ++ s ++ quote
                                | _ => "null"
                                end) values) ++ "]")%string)
    (fun _ => None).

Definition sample_options (specs : Specs) : Options :=
  mkOptions specs None None false None false.

(** The schemas and pages of the examples. *)
Definition title_schema : Specs :=
  SpecsObject [("title", mkFieldSpec (VBool true) String_ None)].

Definition tag_schema : Specs :=
  SpecsObject
    [("tag", mkFieldSpec (VBool false) String_
               (Some [VString "blog"; VString "news"]))].

Definition count_schema : Specs :=
  SpecsObject [("count", mkFieldSpec (VBool false) Number_ None)].

(** [{ title: { required: true, type: String },
       count: { type: Number, allowedValues: [5] } }] *)
Definition title_count_schema : Specs :=
  SpecsObject
    [("title", mkFieldSpec (VBool true) String_ None);
     ("count", mkFieldSpec VUndefined Number_ (Some [VNumber (Int 5)]))].

(** [{ title: { required: true } }]: an entry without [type] *)
Definition untyped_schema : Specs :=
  SpecsObject [("title", mkFieldSpec (VBool true) VUndefined None)].

(** [{ shape: { type: Object, allowedValues: [{ a: 1 }] } }], the allowed
    object living at reference 10 *)
Definition shape_schema : Specs :=
  SpecsObject
    [("shape", mkFieldSpec VUndefined Object_ (Some [sample_object 10]))].

(** [title_schema] with [exclude: ['/d.md']] *)
Definition excluding_options : Options :=
  mkOptions title_schema (Some ["/d.md"]) None false None false.

(** [title_schema] with a hook that drops every error, [dumpToFile] and
    [abortBuild] *)
Definition silencing_options : Options :=
  mkOptions title_schema None (Some (fun _ _ => [])) true None true.

(** [{ shape: { type: String, allowedValues: [{ a: 1 }] } }] *)
Definition string_shape_schema : Specs :=
  SpecsObject
    [("shape", mkFieldSpec VUndefined String_ (Some [sample_object 10]))].

(** [{ shape: { type: Object, allowedValues: [x, y] } }] with [x] and [y]
    two objects [{ a: 1 }], at references 10 and 11 *)
Definition two_shapes_schema : Specs :=
  SpecsObject
    [("shape", mkFieldSpec VUndefined Object_
                 (Some [sample_object 10; sample_object 11]))].

Definition page_a : Page := mkPage "/a.md" [].
Definition page_b : Page := mkPage "/b.md" [("tag", VString "opinion")].
Definition page_c : Page := mkPage "/c.md" [("count", VString "5")].
Definition page_d : Page :=
  mkPage "/d.md" [("title", VString "Hi"); ("extra", VNumber (Int 1))].
Definition page_e : Page := mkPage "/e.md" [("title", VString "Hi")].

(** A page whose [shape] is another [{ a: 1 }], at reference 11 *)
Definition page_f : Page := mkPage "/f.md" [("shape", sample_object 11)].

(** ** Lookup, [push] and [record] *)

Lemma lookup_app {A : Type} (k : string) (l1 l2 : list (string * A)) :
  lookup k (l1 ++ l2) =
  match lookup k l1 with
  | Some a => Some a
  | None => lookup k l2
  end.
Proof.
  induction l1 as [|[k' a] l1 IH]; simpl; [reflexivity|].
  destruct (String.eqb k' k); [reflexivity | exact IH].
Qed.

Lemma lookup_push (p path : string) (v : Violation) (errors : Collector) :
  lookup p (push path v errors) =
  if String.eqb p path
  then option_map (fun l => (l ++ [v])) (lookup p errors)
  else lookup p errors.
Proof.
  induction errors as [|[q l] errors IH]; simpl.
  - destruct (String.eqb p path); reflexivity.
  - destruct (String.eqb q path) eqn:Eqp; simpl.
    + apply String.eqb_eq in Eqp; subst q.
      rewrite (String.eqb_sym p path).
      destruct (String.eqb path p); reflexivity.
    + destruct (String.eqb q p) eqn:Eq.
      * apply String.eqb_eq in Eq; subst q. rewrite Eqp. reflexivity.
      * exact IH.
Qed.

Lemma push_app_absent (path : string) (v : Violation) (errors : Collector)
  (l : list Violation) :
  lookup path errors = None ->
  push path v (errors ++ [(path, l)]) = (errors ++ [(path, (l ++ [v]))]).
Proof.
  induction errors as [|[q l'] errors IH]; simpl; intros H.
  - rewrite String.eqb_refl. reflexivity.
  - destruct (String.eqb q path); [discriminate|].
    rewrite (IH H). reflexivity.
Qed.

Lemma push_nonempty (path : string) (v : Violation) (errors : Collector) :
  entries_nonempty errors -> entries_nonempty (push path v errors).
Proof.
  unfold entries_nonempty.
  induction 1 as [|[q l] errors Hq Hrest IH]; simpl; [constructor|].
  destruct (String.eqb q path); constructor; simpl in *; auto.
  intros Hnil. apply app_eq_nil in Hnil. destruct Hnil; discriminate.
Qed.

Lemma record1_nonempty (path : string) (v : Violation) (errors : Collector) :
  entries_nonempty errors -> entries_nonempty (record1 path v errors).
Proof.
  intros H. unfold record1.
  destruct (lookup path errors).
  - apply push_nonempty, H.
  - apply Forall_app. split; [exact H|].
    constructor; [discriminate | constructor].
Qed.

Lemma record_nonempty (path : string) (vs : list Violation)
  (errors : Collector) :
  entries_nonempty errors -> entries_nonempty (record path vs errors).
Proof.
  unfold record. revert errors.
  induction vs as [|v vs IH]; simpl; intros errors H; [exact H|].
  apply IH, record1_nonempty, H.
Qed.

Lemma record_app (path : string) (vs ws : list Violation)
  (errors : Collector) :
  record path (vs ++ ws) errors = record path ws (record path vs errors).
Proof. unfold record. apply fold_left_app. Qed.

Lemma violations_of_record1 (path : string) (v : Violation)
  (errors : Collector) :
  violations_of path (record1 path v errors) =
  (violations_of path errors ++ [v]).
Proof.
  unfold violations_of, record1.
  destruct (lookup path errors) as [l|] eqn:E.
  - rewrite lookup_push, String.eqb_refl, E. reflexivity.
  - rewrite lookup_app, E. simpl. rewrite String.eqb_refl. reflexivity.
Qed.

Lemma violations_of_record (path : string) (vs : list Violation)
  (errors : Collector) :
  violations_of path (record path vs errors) =
  (violations_of path errors ++ vs).
Proof.
  unfold record. revert errors.
  induction vs as [|v vs IH]; simpl; intros errors.
  - rewrite app_nil_r. reflexivity.
  - rewrite IH, violations_of_record1, <- app_assoc. reflexivity.
Qed.

Lemma lookup_record_other (p path : string) (vs : list Violation)
  (errors : Collector) :
  p <> path -> lookup p (record path vs errors) = lookup p errors.
Proof.
  intros Hp. unfold record. revert errors.
  induction vs as [|v vs IH]; simpl; intros errors; [reflexivity|].
  rewrite IH. unfold record1.
  assert (Hne : String.eqb p path = false) by (apply String.eqb_neq, Hp).
  destruct (lookup path errors).
  - rewrite lookup_push, Hne. reflexivity.
  - rewrite lookup_app. simpl. rewrite String.eqb_sym, Hne.
    destruct (lookup p errors); reflexivity.
Qed.

Lemma record_onto_entry (path : string) (vs l : list Violation)
  (errors : Collector) :
  lookup path errors = None ->
  record path vs (errors ++ [(path, l)]) = (errors ++ [(path, (l ++ vs))]).
Proof.
  intros H. unfold record. revert l.
  induction vs as [|v vs IH]; simpl; intros l.
  - rewrite app_nil_r. reflexivity.
  - unfold record1 at 2. rewrite lookup_app, H. simpl.
    rewrite String.eqb_refl, (push_app_absent _ _ _ _ H), IH, <- app_assoc.
    reflexivity.
Qed.

(** On a path with no entry yet, [record] creates the entry with the whole
    list. *)
Lemma record_absent (path : string) (v : Violation) (vs : list Violation)
  (errors : Collector) :
  lookup path errors = None ->
  record path (v :: vs) errors = (errors ++ [(path, v :: vs)]).
Proof.
  intros H. unfold record. simpl. unfold record1 at 2. rewrite H.
  apply (record_onto_entry path vs [v] errors H).
Qed.


(** ** [addError] *)

Lemma addError_cases (path : string) (v : Violation) (errors : Collector) :
  addError path v errors = (Done tt, record1 path v errors)
  \/ (inherited path = true /\ lookup path errors = None
      /\ exists e, addError path v errors = (Thrown e, errors)).
Proof.
  unfold addError, record1.
  destruct (lookup path errors) eqn:E; [left; reflexivity|].
  destruct (inherited path).
  - right. repeat split. eexists. reflexivity.
  - left. rewrite (push_app_absent _ _ _ _ E). reflexivity.
Qed.

Lemma addError_ok (path : string) (v : Violation) (errors : Collector) :
  inherited path = false ->
  addError path v errors = (Done tt, record path [v] errors).
Proof.
  intros H. destruct (addError_cases path v errors) as [E|(Hi & _)].
  - exact E.
  - congruence.
Qed.

Lemma addError_records (path : string) (v : Violation) (errors : Collector) :
  exists vs, List.length vs <= 1 /\ (forall w, In w vs -> w = v)
             /\ snd (addError path v errors) = record path vs errors.
Proof.
  destruct (addError_cases path v errors) as [E|(_ & _ & e & E)]; rewrite E.
  - exists [v]. simpl. repeat split; auto.
    intros w [<-|[]]. reflexivity.
  - exists []. simpl. repeat split; auto. intros w [].
Qed.

Lemma addError_nonempty (path : string) (v : Violation) (errors : Collector) :
  entries_nonempty errors -> entries_nonempty (snd (addError path v errors)).
Proof.
  intros H. destruct (addError_records path v errors) as (vs & _ & _ & ->).
  apply record_nonempty, H.
Qed.

(** ** The type matcher *)

Lemma assertType_expected (h : Host) (value type : Value) (r : AssertResult) :
  assertType h value type = Done r -> getType type = Done (expectedType r).
Proof.
  unfold assertType. destruct (getType type) as [expected|e]; simpl;
    [|discriminate].
  destruct (simpleCheckRE_test expected).
  - destruct (negb _ && _).
    + destruct (instanceof h value type); simpl; [|discriminate].
      intros [= <-]. reflexivity.
    + intros [= <-]. reflexivity.
  - destruct (instanceof h value type); simpl; [|discriminate].
    intros [= <-]. reflexivity.
Qed.

(** A descriptor without a name never takes the primitive path: the answer
    is that of [instanceof], throw included. *)
Lemma assertType_unnamed (h : Host) (value type : Value) :
  getType type = Done EmptyString ->
  assertType h value type =
  bindO (instanceof h value type)
    (fun v => Done (mkAssertResult v EmptyString)).
Proof. intros H. unfold assertType. rewrite H. reflexivity. Qed.

(** With a constructor as descriptor (callable, an object as [prototype],
    a [toString] that returns, no [Symbol.hasInstance] of its own), the
    matcher returns. *)
Lemma assertType_constructor (h : Host) (value : Value) (ref p : nat)
  (info : ObjInfo) (props : list (string * Value)) (s : string) :
  callable info = true -> prototypeProp info = Some p -> text info = Some s ->
  hasInstance h (VObject ref info props) = None ->
  exists r, assertType h value (VObject ref info props) = Done r.
Proof.
  intros Hc Hp Ht Hh. unfold assertType, getType, instanceof. simpl.
  rewrite Ht, Hh, Hc, Hp. simpl.
  destruct (simpleCheckRE_test _); [destruct (negb _ && _)|];
    destruct value; simpl; eexists; reflexivity.
Qed.

(** ** The key loop *)

Section Validator.

Variable h : Host.
Variable specs : Specs.
Variable page : Page.

Let path : string := regularPath page.

Lemma truthy_key (key : string) :
  truthy (VString key) = false <-> key = EmptyString.
Proof.
  simpl. rewrite negb_false_iff. apply String.eqb_eq.
Qed.

Lemma checkKey_shape (key : string) :
  Shape path key (checkKey h specs page key).
Proof.
  unfold Shape, checkKey. fold path.
  destruct (truthy (VString key)) eqn:Ek; cbn [negb].
  2:{ left. exists EMPTY_KEY. split; [|reflexivity].
      symmetry. apply truthy_key, Ek. }
  destruct (specs_own specs key) as [spec|].
  2:{ left. exists (INVALID_KEY key). split; reflexivity. }
  destruct (is_empty_value _).
  { left. exists (EMPTY_VALUE key). split; reflexivity. }
  unfold bind, lift.
  destruct (assertType _ _) as [r|e].
  2:{ right. right. exists e. reflexivity. }
  destruct (valid r); cbn [negb].
  - destruct (allowedValues spec) as [allowed|].
    + destruct (assertAllowedValue _ _); cbn [negb].
      * right. left. reflexivity.
      * left. eexists (INVALID_VALUE key _ _). split; reflexivity.
    + right. left. reflexivity.
  - destruct (getType (type spec)) as [expected|e].
    + left. eexists (INVALID_TYPE key _ _). split; reflexivity.
    + right. right. exists e. reflexivity.
Qed.

Lemma checkKey_records (key : string) (errors : Collector) :
  exists vs, List.length vs <= 1 /\ (forall v, In v vs -> key_of v = key)
             /\ snd (checkKey h specs page key errors) = record path vs errors.
Proof.
  destruct (checkKey_shape key) as [(v & Hk & E)|[E|(e & E)]]; rewrite E.
  - destruct (addError_records path v errors) as (vs & Hl & Hv & Hs).
    exists vs. repeat split; auto.
    intros w Hw. rewrite (Hv w Hw). exact Hk.
  - exists []. simpl. repeat split; auto. intros v [].
  - exists []. simpl. repeat split; auto. intros v [].
Qed.

Lemma count_key_app (k : string) (vs ws : list Violation) :
  count_key k (vs ++ ws) = count_key k vs + count_key k ws.
Proof. unfold count_key. rewrite filter_app, length_app. reflexivity. Qed.

Lemma count_key_single (k k' : string) (vs : list Violation) :
  List.length vs <= 1 -> (forall v, In v vs -> key_of v = k) ->
  count_key k' vs <= if string_dec k k' then 1 else 0.
Proof.
  intros Hl Hv. unfold count_key.
  destruct (string_dec k k') as [->|Hne].
  - pose proof (filter_length_le (fun v => String.eqb (key_of v) k') vs). lia.
  - destruct vs as [|v [|w vs]]; cbn [filter List.length]; [lia| |simpl in Hl; lia].
    rewrite (Hv v (or_introl eq_refl)).
    apply String.eqb_neq in Hne. rewrite Hne. simpl. lia.
Qed.

Lemma key_loop_counts (keys : list string) (errors : Collector) :
  exists vs,
    snd (forEach (checkKey h specs page) keys errors) = record path vs errors
    /\ forall k, count_key k vs <= count_occ string_dec keys k.
Proof.
  revert errors.
  induction keys as [|key keys IH]; intros errors.
  - exists []. split; [reflexivity|]. intros k. unfold count_key. simpl. lia.
  - destruct (checkKey_records key errors) as (vs & Hl & Hv & Hs).
    cbn [forEach]. unfold bind.
    destruct (checkKey h specs page key errors) as [[[]|e] errors1];
      simpl in Hs; subst errors1.
    + destruct (IH (record path vs errors)) as (ws & Hw & Hc).
      exists (vs ++ ws). split.
      * rewrite Hw, record_app. reflexivity.
      * intros k. rewrite count_key_app. specialize (Hc k).
        pose proof (count_key_single key k vs Hl Hv) as H1.
        cbn [count_occ]. destruct (string_dec key k); lia.
    + exists vs. split; [reflexivity|].
      intros k. pose proof (count_key_single key k vs Hl Hv) as H1.
      cbn [count_occ]. destruct (string_dec key k); lia.
Qed.

(** The callback of the key loop, case by case, in the order of the
    source. *)
Lemma checkKey_chain (key : string) (errors : Collector) :
     let value := get (frontmatter page) key in
     let result := checkKey h specs page key errors in
     (exists vs, List.length vs <= 1 /\ (forall v, In v vs -> key_of v = key)
                 /\ snd result = record path vs errors)
     /\ (key = EmptyString -> result = addError path EMPTY_KEY errors)
     /\ (key <> EmptyString -> specs_own specs key = None ->
         result = addError path (INVALID_KEY key) errors)
     /\ (forall spec,
           key <> EmptyString -> specs_own specs key = Some spec ->
           (is_empty_value value = true ->
            result = addError path (EMPTY_VALUE key) errors)
           /\
           (forall r,
              is_empty_value value = false ->
              assertType h value (type spec) = Done r ->
              (valid r = false ->
               result = addError path
                          (INVALID_TYPE key (expectedType r) (typeof value))
                          errors
               /\ (inherited path = false ->
                   violations_of path (snd result) =
                   violations_of path errors
                   ++ [INVALID_TYPE key (expectedType r) (typeof value)]))
              /\
              (valid r = true ->
               (forall allowed,
                  allowedValues spec = Some allowed ->
                  assertAllowedValue value allowed = false ->
                  result = addError path
                             (INVALID_VALUE key (JSON_stringify h allowed)
                                value) errors)
               /\
               (allowedValues spec = None
                \/ (exists allowed, allowedValues spec = Some allowed
                    /\ assertAllowedValue value allowed = true) ->
                result = (Done tt, errors))))).
Proof.
  intros value result.
  split; [apply checkKey_records|].
  assert (Hkey : key <> EmptyString -> truthy (VString key) = true).
  { intros Hne. destruct (truthy (VString key)) eqn:E; [reflexivity|].
    apply truthy_key in E. contradiction. }
  split; [|split; [|intros spec Hne Hown; split]].
  - intros ->. reflexivity.
  - intros Hne Hown. subst result. unfold checkKey.
    rewrite (Hkey Hne), Hown. reflexivity.
  - intros He. subst result value. unfold checkKey.
    rewrite (Hkey Hne), Hown. cbn [negb]. rewrite He. reflexivity.
  - intros r He Hr.
    assert (E : result =
                if negb (valid r) then
                  addError path
                    (INVALID_TYPE key (expectedType r) (typeof value)) errors
                else
                  match allowedValues spec with
                  | Some allowed =>
                      if negb (assertAllowedValue value allowed)
                      then addError path
                             (INVALID_VALUE key (JSON_stringify h allowed)
                                value) errors
                      else (Done tt, errors)
                  | None => (Done tt, errors)
                  end).
    { subst result value. unfold checkKey.
      rewrite (Hkey Hne), Hown. cbn [negb]. rewrite He.
      unfold bind, lift. rewrite Hr.
      destruct (valid r); cbn [negb].
      - destruct (allowedValues spec) as [allowed|]; [|reflexivity].
        destruct (assertAllowedValue _ _); reflexivity.
      - rewrite (assertType_expected _ _ _ _ Hr). reflexivity. }
    split.
    + intros Hv. rewrite Hv in E. cbn [negb] in E.
      split; [exact E|].
      intros Hi. rewrite E, (addError_ok _ _ _ Hi). cbn [snd].
      apply violations_of_record.
    + intros Hv. rewrite Hv in E. cbn [negb] in E. split.
      * intros allowed Ha Hm. rewrite Ha, Hm in E. exact E.
      * intros [Ha|(allowed & Ha & Hm)]; rewrite Ha in E;
          [exact E|]. rewrite Hm in E. exact E.
Qed.

End Validator.

(** ** One page *)

Lemma forEach_noop {A : Type} (f : A -> M unit) (l : list A) :
  (forall a, In a l -> forall errors, f a errors = (Done tt, errors)) ->
  forall errors, forEach f l errors = (Done tt, errors).
Proof.
  induction l as [|a l IH]; intros H errors; [reflexivity|].
  cbn [forEach]. unfold bind. rewrite (H a (or_introl eq_refl)).
  apply IH. intros b Hb. apply H. right. exact Hb.
Qed.

Lemma forEach_records {A : Type} (path : string) (f : A -> M unit) :
  (forall a errors, exists vs, snd (f a errors) = record path vs errors) ->
  forall l errors, exists vs, snd (forEach f l errors) = record path vs errors.
Proof.
  intros H l. induction l as [|a l IH]; intros errors.
  - exists []. reflexivity.
  - cbn [forEach]. unfold bind.
    destruct (H a errors) as (vs & Hs).
    destruct (f a errors) as [[[]|e] errors1]; simpl in Hs; subst errors1.
    + destruct (IH (record path vs errors)) as (ws & Hw).
      exists (vs ++ ws). rewrite Hw, record_app. reflexivity.
    + exists vs. reflexivity.
Qed.

Lemma forEach_uniform {A : Type} (path : string) (f : A -> M unit)
  (g : A -> Outcome unit * list Violation) (l : list A) :
  (forall a, In a l -> Uniform path (f a) (fst (g a)) (snd (g a))) ->
  Uniform path (forEach f l) (fst (sweep g l)) (snd (sweep g l)).
Proof.
  unfold Uniform. induction l as [|a l IH]; intros H errors; [reflexivity|].
  cbn [forEach sweep]. unfold bind.
  rewrite (H a (or_introl eq_refl)).
  destruct (g a) as [[[]|e] vs]; cbn [fst snd]; [|reflexivity].
  rewrite IH by (intros b Hb; apply H; right; exact Hb).
  destruct (sweep g l) as [o ws]. cbn [fst snd].
  rewrite record_app. reflexivity.
Qed.

Lemma sweep_done {A : Type} (g : A -> Outcome unit * list Violation)
  (l : list A) :
  fst (sweep g l) = Done tt -> snd (sweep g l) = flat_map (fun a => snd (g a)) l.
Proof.
  induction l as [|a l IH]; [reflexivity|].
  cbn [sweep flat_map].
  destruct (g a) as [[[]|e] vs]; cbn [fst snd]; [|discriminate].
  destruct (sweep g l) as [o ws]. cbn [fst snd] in *.
  intros Ho. rewrite (IH Ho). reflexivity.
Qed.

Lemma sweep_all_done {A : Type} (g : A -> list Violation) (l : list A) :
  sweep (fun a => (Done tt, g a)) l = (Done tt, flat_map g l).
Proof.
  induction l as [|a l IH]; [reflexivity|].
  cbn [sweep flat_map]. rewrite IH. reflexivity.
Qed.

Lemma flat_map_filter {A B : Type} (p : A -> bool) (f : A -> B) (l : list A) :
  flat_map (fun a => if p a then [f a] else []) l = map f (filter p l).
Proof.
  induction l as [|a l IH]; [reflexivity|].
  cbn [flat_map filter]. rewrite IH. destruct (p a); reflexivity.
Qed.

Section Pass.

Variable h : Host.
Variable options : Options.
Variable page : Page.

Let path : string := regularPath page.
Let keys : list string := Object_keys (frontmatter page).

Lemma checkRequired_records (fieldName : string) (errors : Collector) :
  exists vs, snd (checkRequired page fieldName errors) = record path vs errors.
Proof.
  unfold checkRequired.
  destruct (indexOf_is_minus_one _ _).
  - destruct (addError_records path (MISSING_KEY fieldName) errors)
      as (vs & _ & _ & Hs).
    exists vs. exact Hs.
  - exists []. reflexivity.
Qed.

Lemma extendPageData_records (errors : Collector) :
  exists vs, snd (extendPageData h options page errors) = record path vs errors.
Proof.
  unfold extendPageData.
  destruct (negb _); [exists []; reflexivity|].
  unfold bind.
  destruct (forEach_records path (checkRequired page) checkRequired_records
              (Object_keys (pickBy (specs_entries (specs options)) is_required))
              errors) as (vs & Hs).
  destruct (forEach (checkRequired page) _ errors) as [[[]|e] errors1];
    simpl in Hs; subst errors1.
  - destruct (forEach_records path (checkKey h (specs options) page)
                (fun key errs =>
                   match checkKey_records h (specs options) page key errs with
                   | ex_intro _ ws (conj _ (conj _ Hw)) => ex_intro _ ws Hw
                   end)
                (Object_keys (frontmatter page)) (record path vs errors))
      as (ws & Hw).
    exists (vs ++ ws). rewrite Hw, record_app. reflexivity.
  - exists vs. reflexivity.
Qed.

Lemma checkRequired_uniform (fieldName : string) :
  inherited path = false ->
  Uniform path (checkRequired page fieldName) (Done tt)
    (if indexOf_is_minus_one keys fieldName then [MISSING_KEY fieldName]
     else []).
Proof.
  intros Hi errors. unfold checkRequired. fold keys.
  destruct (indexOf_is_minus_one keys fieldName).
  - apply addError_ok, Hi.
  - reflexivity.
Qed.

Lemma checkKey_uniform (key : string) :
  inherited path = false ->
  Uniform path (checkKey h (specs options) page key)
    (fst (checkKey h (specs options) page key []))
    (emitted (checkKey h (specs options) page key) path).
Proof.
  intros Hi errors. unfold emitted.
  destruct (checkKey_shape h (specs options) page key)
    as [(v & _ & E)|[E|(e & E)]]; rewrite !E.
  - fold path. rewrite !(addError_ok _ _ _ Hi). cbn [fst snd].
    rewrite violations_of_record. reflexivity.
  - reflexivity.
  - reflexivity.
Qed.

Lemma required_loop_uniform :
  inherited path = false ->
  Uniform path
    (forEach (checkRequired page)
       (Object_keys (pickBy (specs_entries (specs options)) is_required)))
    (Done tt) (missing_keys (specs options) page).
Proof.
  intros Hi errors.
  pose (g := fun f : string =>
               (Done tt,
                if indexOf_is_minus_one keys f then [MISSING_KEY f] else [])).
  rewrite (forEach_uniform path (checkRequired page) g).
  - unfold g. rewrite (sweep_all_done
                         (fun f => if indexOf_is_minus_one keys f
                                   then [MISSING_KEY f] else [])).
    cbn [fst snd]. rewrite flat_map_filter. reflexivity.
  - intros f _. apply checkRequired_uniform, Hi.
Qed.

(** C5.  For a page that is not excluded, what [extendPageData] adds under
    the page's path is the MISSING_KEY errors of the required sweep, one per
    required field that is no key of the frontmatter, followed by what the
    key loop records; when the pass returns, the latter is what each key
    yields, in the order of the frontmatter's keys.  The required sweep is
    complete in either case: a throw in the key loop comes after it. *)
Theorem violations_are_missing_then_per_key (errors : Collector) :
  inherited path = false ->
  mm h [regularPath page] (exclude_patterns options) = [] ->
  let result := extendPageData h options page errors in
  (exists per_key,
     snd result =
     record path (missing_keys (specs options) page ++ per_key) errors)
  /\ (fst result = Done tt ->
      snd result =
      record path
        (missing_keys (specs options) page
         ++ flat_map
              (fun key => emitted (checkKey h (specs options) page key) path)
              keys)
        errors).
Proof.
  intros Hi Hex result. subst result. unfold extendPageData.
  rewrite Hex. cbn [List.length Nat.eqb negb]. unfold bind.
  rewrite (required_loop_uniform Hi errors). cbv beta iota.
  pose (g := fun key =>
               (fst (checkKey h (specs options) page key []),
                emitted (checkKey h (specs options) page key) path)).
  assert (E : Uniform path (forEach (checkKey h (specs options) page) keys)
                (fst (sweep g keys)) (snd (sweep g keys))).
  { apply forEach_uniform. intros key _. apply checkKey_uniform, Hi. }
  fold keys. split.
  - exists (snd (sweep g keys)). rewrite E, record_app. reflexivity.
  - rewrite E. cbn [fst snd]. intros Hd.
    rewrite (sweep_done g keys Hd), record_app. reflexivity.
Qed.

(** C4, amended.  When every required field is present and valid and,
    moreover, every key of the frontmatter is non-empty, declared, and holds
    a value that is not empty, passes the type matcher and is allowed, the
    pass returns and records nothing. *)
Theorem valid_record_has_no_violation (errors : Collector) :
  required_fields_valid h (specs options) page ->
  every_key_valid h (specs options) page ->
  extendPageData h options page errors = (Done tt, errors).
Proof.
  intros Hreq Hkeys. unfold extendPageData.
  destruct (negb _); [reflexivity|].
  unfold bind. rewrite forEach_noop.
  - apply forEach_noop. intros key Hin errs.
    destruct (Hkeys key Hin) as (Hne & spec & r & Hown & He & Hr & Hv & Ha).
    destruct (checkKey_chain h (specs options) page key errs)
      as (_ & _ & _ & Hspec).
    destruct (Hspec spec Hne Hown) as (_ & Htype).
    destruct (Htype r He Hr) as (_ & Hvalid).
    apply (Hvalid Hv).
    destruct (allowedValues spec) as [allowed|] eqn:E.
    + right. exists allowed. split; [reflexivity|]. apply Ha. reflexivity.
    + left. reflexivity.
  - intros name Hin errs. unfold checkRequired.
    unfold Object_keys in Hin. apply in_map_iff in Hin.
    destruct Hin as ([name' spec] & <- & Hin).
    unfold pickBy in Hin. apply filter_In in Hin. destruct Hin as (Hin & Hr).
    destruct (Hreq name' spec Hin Hr) as (Hpresent & _).
    unfold indexOf_is_minus_one.
    assert (E : existsb (String.eqb name') (Object_keys (frontmatter page))
                = true).
    { apply existsb_exists. exists name'. split; [exact Hpresent|].
      apply String.eqb_refl. }
    cbn [fst]. rewrite E. reflexivity.
Qed.

(** C7.  A page whose path matches the exclusion patterns is left alone:
    [extendPageData] returns at once and [errorsByPath] is what it was,
    whatever the frontmatter and the schema are. *)
Theorem excluded_page_records_nothing (errors : Collector) :
  mm h [regularPath page] (exclude_patterns options) <> [] ->
  extendPageData h options page errors = (Done tt, errors)
  /\ violations_of path (snd (extendPageData h options page errors)) =
     violations_of path errors.
Proof.
  intros Hex. unfold extendPageData.
  destruct (mm h [regularPath page] (exclude_patterns options));
    [contradiction|].
  split; reflexivity.
Qed.

End Pass.

(** ** The hooks over a run *)

Lemma updated_keeps (errors : Collector) : snd (updated errors) = errors.
Proof. unfold updated. destruct (negb _); reflexivity. Qed.

(** [ready] leaves [errorsByPath] empty: reset after a report, and already
    without keys when there is nothing to report. *)
Lemma ready_resets (options : Options) (sourceDir : string)
  (errors : Collector) :
  snd (ready options sourceDir errors) = [].
Proof.
  unfold ready.
  destruct (match postProcessErrors options with
            | Some f => f errors sourceDir
            | None => errors
            end) as [|entry errors1]; reflexivity.
Qed.

(** Without a post-processing hook, what [ready] reports is [errorsByPath]
    as it stands, once. *)
Lemma ready_reports_all (options : Options) (sourceDir : string)
  (errors : Collector) :
  postProcessErrors options = None -> errors <> [] ->
  dumpToFile options = false -> abortBuild options = false ->
  ready options sourceDir errors = ([ConsoleReport errors], []).
Proof.
  intros Hp Hne Hd Ha. unfold ready. rewrite Hp, Hd, Ha.
  destruct errors; [contradiction|reflexivity].
Qed.

Section Run.

Variable h : Host.
Variable options : Options.
Variable sourceDir : string.

Lemma extendPageData_nonempty (page : Page) (errors : Collector) :
  entries_nonempty errors ->
  entries_nonempty (snd (extendPageData h options page errors)).
Proof.
  intros H. destruct (extendPageData_records h options page errors) as (vs & ->).
  apply record_nonempty, H.
Qed.

Lemma call_nonempty (c : HookCall) (errors : Collector) :
  entries_nonempty errors ->
  entries_nonempty (snd (call h options sourceDir c errors)).
Proof.
  intros H. destruct c as [page| |]; cbn [call snd].
  - apply extendPageData_nonempty, H.
  - rewrite updated_keeps. exact H.
  - rewrite ready_resets. constructor.
Qed.

Lemma calls_nonempty (cs : list HookCall) (errors : Collector) :
  entries_nonempty errors ->
  entries_nonempty (snd (calls h options sourceDir cs errors)).
Proof.
  revert errors. induction cs as [|c cs IH]; intros errors H; [exact H|].
  cbn [calls].
  pose proof (call_nonempty c errors H) as H1.
  destruct (call h options sourceDir c errors) as [out1 errors1].
  specialize (IH errors1 H1).
  destruct (calls h options sourceDir cs errors1) as [out2 errors2].
  exact IH.
Qed.

(** C9.  No path of [errorsByPath] ever maps to an empty array: this holds
    after any sequence of hook calls of a run, it is kept by every hook call
    and by every single [addError].  An entry comes into being in [addError],
    holding the error being added; and a page for which nothing is recorded
    leaves [errorsByPath] exactly as it was, so it gains no entry. *)
Theorem collector_entries_nonempty :
  (forall cs, entries_nonempty (snd (run h options sourceDir cs)))
  /\ (forall cs errors,
        entries_nonempty errors ->
        entries_nonempty (snd (calls h options sourceDir cs errors)))
  /\ (forall path error errors,
        entries_nonempty errors ->
        entries_nonempty (snd (addError path error errors)))
  /\ (forall path error errors,
        lookup path errors = None -> inherited path = false ->
        addError path error errors = (Done tt, errors ++ [(path, [error])]))
  /\ (forall page errors,
        violations_of (regularPath page)
          (snd (extendPageData h options page errors)) =
        violations_of (regularPath page) errors ->
        snd (extendPageData h options page errors) = errors).
Proof.
  split; [|split; [|split; [|split]]].
  - intros cs. unfold run.
    destruct (module_exports options) as [out [|]]; [constructor|].
    pose proof (calls_nonempty cs [] (Forall_nil _)) as H.
    destruct (calls h options sourceDir cs []) as [out' errors]. exact H.
  - apply calls_nonempty.
  - intros path error errors. apply addError_nonempty.
  - intros path error errors Hl Hi.
    rewrite (addError_ok _ _ _ Hi). unfold record. simpl.
    unfold record1. rewrite Hl. reflexivity.
  - intros page errors.
    destruct (extendPageData_records h options page errors) as (vs & ->).
    rewrite violations_of_record. intros H.
    rewrite <- (app_nil_r (violations_of _ errors)) in H at 2.
    apply app_inv_head in H. subst vs. reflexivity.
Qed.

(** C8.  Without [specs] the plugin is the bare [{ name }]: the one thing it
    does is log that no specs were found; the host has no hook to call, so
    no page is validated and [errorsByPath] stays empty. *)
Theorem absent_specs_is_noop :
  specs_truthy (specs options) = false ->
  module_exports options = ([LogNoSpecs], NameOnly)
  /\ forall cs, run h options sourceDir cs = ([LogNoSpecs], []).
Proof.
  intros H.
  assert (E : module_exports options = ([LogNoSpecs], NameOnly)).
  { unfold module_exports. rewrite H. reflexivity. }
  split; [exact E|]. intros cs. unfold run. rewrite E. reflexivity.
Qed.

(** C3, amended.  A [specs] that is truthy and whose [typeof] is not
    ['object'] (a function, a non-empty string, a number, [true], a symbol)
    is turned down before any page is seen: one message is logged, naming
    the type found, the plugin is the bare [{ name }], and a run records
    nothing.  An array has [typeof] ['object'] and gets the hooks. *)
Theorem non_object_specs_rejected :
  specs_truthy (specs options) = true ->
  specs_typeof (specs options) <> "object" ->
  module_exports options =
  ([LogInvalidSpecsType (specs_typeof (specs options))], NameOnly)
  /\ (forall cs,
        run h options sourceDir cs =
        ([LogInvalidSpecsType (specs_typeof (specs options))], []))
  /\ (forall elems, specs options <> SpecsArray elems).
Proof.
  intros Ht Ho.
  assert (E : module_exports options =
              ([LogInvalidSpecsType (specs_typeof (specs options))], NameOnly)).
  { unfold module_exports. rewrite Ht. cbn [negb].
    apply String.eqb_neq in Ho. rewrite Ho. reflexivity. }
  split; [exact E|]. split.
  - intros cs. unfold run. rewrite E. reflexivity.
  - intros elems Hs. rewrite Hs in Ho. apply Ho. reflexivity.
Qed.

End Run.

(** An array as [specs] is accepted. *)
Lemma array_specs_accepted (options : Options) (elems : list FieldSpec) :
  specs options = SpecsArray elems -> module_exports options = ([], WithHooks).
Proof. intros H. unfold module_exports. rewrite H. reflexivity. Qed.

(** ** Allowed values *)

Lemma assertAllowedValue_spec (value : Value) (allowed : list Value) :
  assertAllowedValue value allowed = true <->
  exists a, In a allowed /\ strict_equal value a = true.
Proof. unfold assertAllowedValue. apply existsb_exists. Qed.

Lemma assertAllowedValue_none (value : Value) (allowed : list Value) :
  (forall a, In a allowed -> strict_equal value a = false) ->
  assertAllowedValue value allowed = false.
Proof.
  intros H. destruct (assertAllowedValue value allowed) eqn:E; [|reflexivity].
  apply assertAllowedValue_spec in E. destruct E as (a & Hin & Ha).
  rewrite (H a Hin) in Ha. discriminate.
Qed.

(** ** The scenarios of the specification *)

Example scenario_missing_key :
  emitted (extendPageData sample_host (sample_options title_schema) page_a)
    "/a.md" = [MISSING_KEY "title"].
Proof. reflexivity. Qed.

Example scenario_invalid_value :
  exists expected,
    emitted (extendPageData sample_host (sample_options tag_schema) page_b)
      "/b.md" = [INVALID_VALUE "tag" expected (VString "opinion")].
Proof. eexists. reflexivity. Qed.

Example scenario_invalid_type :
  emitted (extendPageData sample_host (sample_options count_schema) page_c)
    "/c.md" = [INVALID_TYPE "count" "Number" "string"].
Proof. reflexivity. Qed.

Example scenario_invalid_key :
  emitted (extendPageData sample_host (sample_options title_schema) page_d)
    "/d.md" = [INVALID_KEY "extra"].
Proof. reflexivity. Qed.

(** ** Instances *)

Lemma violations_are_missing_then_per_key_witness :
  inherited "/c.md" = false
  /\ mm sample_host ["/c.md"]
       (exclude_patterns (sample_options title_count_schema)) = []
  /\ fst (extendPageData sample_host (sample_options title_count_schema)
            page_c []) = Done tt
  /\ snd (extendPageData sample_host (sample_options title_count_schema)
            page_c []) =
     [("/c.md", [MISSING_KEY "title"; INVALID_TYPE "count" "Number" "string"])].
Proof.
  split; [reflexivity|]. split; [reflexivity|]. split; [reflexivity|].
  destruct (violations_are_missing_then_per_key sample_host
              (sample_options title_count_schema) page_c [] eq_refl eq_refl)
    as [_ H].
  rewrite (H eq_refl). reflexivity.
Defined.

(** C4 as it is worded fails on the fourth scenario: the one required
    field is present and valid, and the undeclared key [extra] is reported
    all the same. *)
Lemma valid_required_fields_with_violation :
  required_fields_valid sample_host title_schema page_d
  /\ emitted (extendPageData sample_host (sample_options title_schema) page_d)
       "/d.md" = [INVALID_KEY "extra"]
  /\ emitted (extendPageData sample_host (sample_options title_schema) page_d)
       "/d.md" <> [].
Proof.
  split; [|split; [reflexivity|discriminate]].
  intros name spec [[= <- <-]|[]] _. cbn.
  split; [left; reflexivity|]. split.
  - eexists. split; reflexivity.
  - intros allowed [=].
Qed.

Lemma valid_record_has_no_violation_witness :
  required_fields_valid sample_host title_schema page_e
  /\ every_key_valid sample_host title_schema page_e
  /\ extendPageData sample_host (sample_options title_schema) page_e [] =
     (Done tt, []).
Proof.
  assert (Hreq : required_fields_valid sample_host title_schema page_e).
  { intros name spec [[= <- <-]|[]] _. cbn.
    split; [left; reflexivity|]. split.
    - eexists. split; reflexivity.
    - intros allowed [=]. }
  assert (Hkeys : every_key_valid sample_host title_schema page_e).
  { intros key [<-|[]]. cbn. split; [discriminate|].
    eexists. eexists. split; [reflexivity|]. split; [reflexivity|].
    split; [reflexivity|]. split; [reflexivity|]. intros allowed [=]. }
  split; [exact Hreq|]. split; [exact Hkeys|].
  exact (valid_record_has_no_violation sample_host
           (sample_options title_schema) page_e [] Hreq Hkeys).
Defined.

Lemma excluded_page_records_nothing_witness :
  mm sample_host ["/d.md"] (exclude_patterns excluding_options) <> []
  /\ extendPageData sample_host excluding_options page_d [] = (Done tt, []).
Proof.
  assert (H : mm sample_host ["/d.md"] (exclude_patterns excluding_options)
              <> []) by discriminate.
  split; [exact H|].
  exact (proj1 (excluded_page_records_nothing sample_host excluding_options
                  page_d [] H)).
Defined.

Lemma absent_specs_is_noop_witness :
  specs_truthy (specs (sample_options SpecsUndefined)) = false
  /\ run sample_host (sample_options SpecsUndefined) "docs"
       [CallExtendPageData page_d; CallReady] = ([LogNoSpecs], []).
Proof.
  split; [reflexivity|].
  exact (proj2 (absent_specs_is_noop sample_host
                  (sample_options SpecsUndefined) "docs" eq_refl)
           [CallExtendPageData page_d; CallReady]).
Defined.

(** C3 as it is worded fails on a list: an empty array as [specs] gets the
    hooks, pages are validated against it and errors are recorded. *)
Lemma array_specs_validated :
  module_exports (sample_options (SpecsArray [])) = ([], WithHooks)
  /\ run sample_host (sample_options (SpecsArray [])) "docs"
       [CallExtendPageData page_e] =
     ([], [("/e.md", [INVALID_KEY "title"])]).
Proof. split; reflexivity. Qed.

Lemma non_object_specs_rejected_witness :
  specs_truthy (specs (sample_options SpecsFunction)) = true
  /\ specs_typeof (specs (sample_options SpecsFunction)) <> "object"
  /\ run sample_host (sample_options SpecsFunction) "docs"
       [CallExtendPageData page_d; CallReady] =
     ([LogInvalidSpecsType "function"], []).
Proof.
  assert (H : specs_typeof (specs (sample_options SpecsFunction)) <> "object")
    by discriminate.
  split; [reflexivity|]. split; [exact H|].
  exact (proj1 (proj2 (non_object_specs_rejected sample_host
                         (sample_options SpecsFunction) "docs" eq_refl H))
           [CallExtendPageData page_d; CallReady]).
Defined.

Lemma collector_entries_nonempty_witness :
  entries_nonempty [("/a.md", [MISSING_KEY "title"])]
  /\ entries_nonempty
       (snd (calls sample_host (sample_options title_schema) "docs"
               [CallExtendPageData page_d; CallUpdated; CallExtendPageData page_e]
               [("/a.md", [MISSING_KEY "title"])]))
  /\ snd (extendPageData sample_host (sample_options title_schema) page_e
            [("/a.md", [MISSING_KEY "title"])]) =
     [("/a.md", [MISSING_KEY "title"])].
Proof.
  assert (H : entries_nonempty [("/a.md", [MISSING_KEY "title"])]).
  { constructor; [discriminate|constructor]. }
  destruct (collector_entries_nonempty sample_host
              (sample_options title_schema) "docs")
    as (_ & Hcalls & _ & _ & Hclean).
  split; [exact H|]. split.
  - exact (Hcalls _ _ H).
  - exact (Hclean page_e _ eq_refl).
Defined.

(** ** Where the code departs from the specification *)

(** C6.  [updated] reports and leaves [errorsByPath] as it is: the errors of
    page [/a.md] are still there after the report, and validating the page
    again puts them in a second time. *)
Lemma updated_leaves_collector_populated :
  let options := sample_options title_schema in
  let errors := snd (extendPageData sample_host options page_a []) in
  errors = [("/a.md", [MISSING_KEY "title"])]
  /\ updated errors = ([ConsoleReport errors], errors)
  /\ snd (calls sample_host options "docs"
            [CallExtendPageData page_a; CallUpdated; CallExtendPageData page_a]
            []) =
     [("/a.md", [MISSING_KEY "title"; MISSING_KEY "title"])]
  /\ ready options "docs" errors = ([ConsoleReport errors], []).
Proof. repeat split. Qed.

(** C2.  A descriptor that resolves to no name skips the primitive path
    and goes to [instanceof], which throws when the descriptor is not
    callable: with the [type] of an entry missing, the type matcher throws
    on any value, and so does the pass over the page, after the required
    sweep. *)
Lemma assertType_throws_on_missing_type :
  getType VUndefined = Done EmptyString
  /\ simpleCheckRE_test EmptyString = false
  /\ (forall h value,
        assertType h value VUndefined =
        Thrown (TypeError "Right-hand side of instanceof is not callable"))
  /\ extendPageData sample_host (sample_options untyped_schema) page_e [] =
     (Thrown (TypeError "Right-hand side of instanceof is not callable"), []).
Proof. repeat split. Qed.

(** ** More on the type matcher *)

Lemma all_word_take_word (s : string) : all_word (take_word s) = true.
Proof.
  induction s as [|c s IH]; [reflexivity|].
  simpl. destruct (is_word c) eqn:E; [|reflexivity].
  simpl. rewrite E. exact IH.
Qed.

Lemma skip_spaces_app (ws s : string) :
  all_space ws = true -> skip_spaces (ws ++ s)%string = skip_spaces s.
Proof.
  induction ws as [|c ws IH]; simpl; [reflexivity|].
  intros H. apply andb_prop in H. destruct H as [Hc Hws].
  rewrite Hc. apply IH, Hws.
Qed.

Lemma take_word_app (name rest : string) :
  all_word name = true -> word_ends rest = true ->
  take_word (name ++ rest)%string = name.
Proof.
  intros Hn Hr. induction name as [|c name IH]; simpl in *.
  - destruct rest as [|c rest]; [reflexivity|].
    simpl in Hr. apply negb_true_iff in Hr. simpl. rewrite Hr. reflexivity.
  - apply andb_prop in Hn. destruct Hn as [Hc Hn].
    rewrite Hc, (IH Hn). reflexivity.
Qed.

Lemma strip_prefix_app (p s : string) :
  strip_prefix p (p ++ s)%string = Some s.
Proof.
  induction p as [|c p IH]; simpl; [destruct s; reflexivity|].
  rewrite Ascii.eqb_refl. exact IH.
Qed.

Lemma simple_names (s : string) :
  simpleCheckRE_test s = true ->
  s = "String" \/ s = "Number" \/ s = "Boolean" \/ s = "Function"
  \/ s = "Symbol".
Proof.
  unfold simpleCheckRE_test. intros H.
  apply existsb_exists in H. destruct H as (n & Hin & He).
  apply String.eqb_eq in He. subst n. simpl in Hin. intuition auto.
Qed.

(** X1.  The name [getType] reads off a descriptor is made of word
    characters only (letters, digits, underscore); it may be empty. *)
Theorem getType_name_is_word (fn : Value) (name : string) :
  getType fn = Done name -> all_word name = true.
Proof.
  unfold getType. destruct (truthy fn); [|intros [= <-]; reflexivity].
  destruct (toString fn) as [s|e]; simpl; [|discriminate].
  intros [= <-]. unfold match_function_name.
  destruct (strip_prefix _ _) as [rest|]; [|reflexivity].
  destruct (take_word rest) eqn:E; [reflexivity|].
  rewrite <- E. apply all_word_take_word.
Qed.

Lemma getType_name_is_word_witness :
  getType String_ = Done "String" /\ all_word "String" = true.
Proof.
  split; [reflexivity|].
  exact (getType_name_is_word String_ "String" eq_refl).
Defined.

(** X2.  For a function whose text is, after optional white space, the
    word [function], one space, a non-empty name of word characters and
    then something that is no word character, [getType] is that name. *)
Theorem getType_reads_declared_name (ws name rest : string) (ref : nat)
  (info : ObjInfo) (props : list (string * Value)) :
  all_space ws = true -> all_word name = true -> name <> EmptyString ->
  word_ends rest = true ->
  text info = Some (ws ++ "function " ++ name ++ rest)%string ->
  getType (VObject ref info props) = Done name.
Proof.
  intros Hws Hn Hne Hr Ht. unfold getType, toString. cbn [truthy].
  rewrite Ht. cbn [bindO]. unfold match_function_name.
  rewrite (skip_spaces_app _ _ Hws).
  change (skip_spaces ("function " ++ name ++ rest)%string)
    with ("function " ++ name ++ rest)%string.
  rewrite strip_prefix_app, (take_word_app _ _ Hn Hr).
  destruct name; [contradiction|reflexivity].
Qed.

Lemma getType_reads_declared_name_witness :
  getType Number_ = Done "Number".
Proof.
  exact (getType_reads_declared_name EmptyString "Number"
           "() { [native code] }" 2
           (mkObjInfo true (Some Number_prototype)
              [Function_prototype; Object_prototype]
              (Some "function Number() { [native code] }"))
           [] eq_refl eq_refl ltac:(discriminate) eq_refl eq_refl).
Defined.

(** X3.  [getType] throws for one kind of descriptor only: an object whose
    [toString] throws.  Every falsy descriptor yields the empty name. *)
Theorem getType_throws_iff (fn : Value) :
  ((exists e, getType fn = Thrown e) <->
   exists ref info props, fn = VObject ref info props /\ text info = None)
  /\ (truthy fn = false -> getType fn = Done EmptyString).
Proof.
  split.
  - split.
    + intros (e & H). unfold getType in H.
      destruct fn as [| |b|n|s|id d|ref info props]; simpl in H;
        try discriminate.
      * destruct b; discriminate.
      * destruct n as [|neg|z]; try discriminate.
        destruct (negb (Z.eqb z 0)); discriminate.
      * destruct (negb (String.eqb s EmptyString)); discriminate.
      * exists ref, info, props. split; [reflexivity|].
        destruct (text info); [discriminate|reflexivity].
    + intros (ref & info & props & -> & Ht).
      unfold getType. simpl. rewrite Ht. eexists. reflexivity.
  - intros H. unfold getType. rewrite H. reflexivity.
Qed.

Lemma getType_throws_iff_witness :
  truthy (VNumber (Int 0)) = false /\ getType (VNumber (Int 0)) = Done EmptyString.
Proof.
  split; [reflexivity|].
  exact (proj2 (getType_throws_iff (VNumber (Int 0))) eq_refl).
Defined.

(** X4.  With a constructor as descriptor (callable, an object as
    [prototype], a [toString] that returns) that has no [Symbol.hasInstance]
    method of its own, the type matcher always returns a verdict, and the
    [expectedType] it reports is what [getType] reads. *)
Theorem assertType_returns_on_constructor (h : Host) (value type : Value) :
  is_constructor type = true -> hasInstance h type = None ->
  exists r, assertType h value type = Done r
            /\ getType type = Done (expectedType r).
Proof.
  intros H Hh. destruct type as [| | | | | |ref info props]; try discriminate.
  cbn [is_constructor] in H.
  apply andb_prop in H. destruct H as [H Ht].
  apply andb_prop in H. destruct H as [Hc Hp].
  destruct (prototypeProp info) as [p|] eqn:Ep; [|discriminate].
  destruct (text info) as [s|] eqn:Es; [|discriminate].
  destruct (assertType_constructor h value ref p info props s Hc Ep Es Hh)
    as (r & Hr).
  exists r. split; [exact Hr|]. apply (assertType_expected _ _ _ _ Hr).
Qed.

Lemma assertType_returns_on_constructor_witness :
  is_constructor String_ = true
  /\ hasInstance sample_host String_ = None
  /\ exists r, assertType sample_host (sample_object 7) String_ = Done r
               /\ getType String_ = Done (expectedType r).
Proof.
  split; [reflexivity|]. split; [reflexivity|].
  exact (assertType_returns_on_constructor sample_host (sample_object 7)
           String_ eq_refl eq_refl).
Defined.

(** X5.  A descriptor that has no [Symbol.hasInstance] method of its own
    accepts neither [null] nor [undefined]: whenever the type matcher returns
    on one of them, the verdict is invalid. *)
Theorem assertType_rejects_null_and_undefined (h : Host) (value type : Value)
  (r : AssertResult) :
  hasInstance h type = None ->
  value = VNull \/ value = VUndefined ->
  assertType h value type = Done r -> valid r = false.
Proof.
  intros Hh Hv. unfold assertType.
  destruct (getType type) as [expected|e]; cbn [bindO]; [|discriminate].
  assert (Hinst : forall v, instanceof h value type = Done v -> v = false).
  { intros v. unfold instanceof.
    destruct type as [| | | | | |ref info props]; try discriminate.
    rewrite Hh. destruct (callable info); [|discriminate].
    destruct Hv as [-> | ->]; intros [= <-]; reflexivity. }
  destruct (simpleCheckRE_test expected) eqn:Es.
  - apply simple_names in Es.
    assert (Ht : String.eqb (typeof value) (toLowerCase expected) = false).
    { destruct Hv as [-> | ->];
        destruct Es as [->|[->|[->|[->| ->]]]]; reflexivity. }
    rewrite Ht. cbn [negb andb].
    destruct (String.eqb (typeof value) "object").
    + destruct (instanceof h value type) as [v|e] eqn:Ei; cbn [bindO];
        [|discriminate].
      intros [= <-]. apply (Hinst v eq_refl).
    + intros [= <-]. reflexivity.
  - destruct (instanceof h value type) as [v|e] eqn:Ei; cbn [bindO];
      [|discriminate].
    intros [= <-]. apply (Hinst v eq_refl).
Qed.

Lemma assertType_rejects_null_and_undefined_witness :
  hasInstance sample_host Object_ = None
  /\ (VNull = VNull \/ VNull = VUndefined)
  /\ assertType sample_host VNull Object_ =
     Done (mkAssertResult false "Object")
  /\ valid (mkAssertResult false "Object") = false.
Proof.
  split; [reflexivity|]. split; [left; reflexivity|]. split; [reflexivity|].
  exact (assertType_rejects_null_and_undefined sample_host VNull Object_ _
           eq_refl (or_introl eq_refl) eq_refl).
Defined.

(** X6.  By a descriptor that has no [Symbol.hasInstance] method of its
    own, a primitive value (boolean, number, string, symbol) is accepted
    exactly when the name of the descriptor is the name of the value's own
    constructor: [String] for a string, [Number] for a number, and so on. *)
Theorem assertType_primitive_by_name (h : Host) (value type : Value)
  (r : AssertResult) :
  hasInstance h type = None ->
  is_primitive value = true ->
  assertType h value type = Done r ->
  (valid r = true <-> expectedType r = primitive_name value).
Proof.
  intros Hh Hp. unfold assertType.
  destruct (getType type) as [expected|e]; cbn [bindO]; [|discriminate].
  assert (Hinst : forall v, instanceof h value type = Done v -> v = false).
  { intros v. unfold instanceof.
    destruct type as [| | | | | |ref info props]; try discriminate.
    rewrite Hh. destruct (callable info); [|discriminate].
    destruct value; try discriminate; intros [= <-]; reflexivity. }
  destruct (simpleCheckRE_test expected) eqn:Es.
  - apply simple_names in Es.
    assert (Ho : String.eqb (typeof value) "object" = false)
      by (destruct value; try discriminate; reflexivity).
    rewrite Ho, andb_false_r. intros [= <-]. cbn [valid expectedType].
    destruct value; try discriminate;
      destruct Es as [->|[->|[->|[->| ->]]]]; cbn;
      split; intros H; try discriminate; reflexivity.
  - destruct (instanceof h value type) as [v|e] eqn:Ei; cbn [bindO];
      [|discriminate].
    intros [= <-]. cbn [valid expectedType]. rewrite (Hinst v eq_refl).
    split; [discriminate|].
    intros ->. destruct value; try discriminate; discriminate.
Qed.

Lemma assertType_primitive_by_name_witness :
  hasInstance sample_host Number_ = None
  /\ is_primitive (VString "5") = true
  /\ assertType sample_host (VString "5") Number_ =
     Done (mkAssertResult false "Number")
  /\ "Number" <> primitive_name (VString "5").
Proof.
  split; [reflexivity|]. split; [reflexivity|]. split; [reflexivity|].
  intros H.
  pose proof (proj2 (assertType_primitive_by_name sample_host (VString "5")
                       Number_ (mkAssertResult false "Number")
                       eq_refl eq_refl eq_refl) H).
  discriminate.
Defined.

(** ** More on allowed values and on the collector *)

Lemma strict_equal_plain (value a : Value) :
  match value with
  | VBool _ | VNumber _ | VString _ => True
  | _ => False
  end ->
  strict_equal value a = true -> a = value.
Proof.
  destruct value as [| |b|n|s| |]; try contradiction; intros _;
    destruct a as [| |b'|n'|s'| |]; simpl; try discriminate.
  - intros H. apply Bool.eqb_prop in H. subst. reflexivity.
  - destruct n as [|x|x], n' as [|y|y]; simpl; try discriminate.
    + intros H. apply Bool.eqb_prop in H. subst. reflexivity.
    + intros H. apply Z.eqb_eq in H. subst. reflexivity.
  - intros H. apply String.eqb_eq in H. subst. reflexivity.
Qed.

(** X7.  For a boolean, a number or a string, being allowed is being an
    element of [allowedValues], with one exception: [NaN] is never allowed,
    even when [allowedValues] lists it.  No conversion takes place: the
    string [5] is not the number [5]. *)
Theorem assertAllowedValue_plain_membership (value : Value)
  (allowed : list Value) :
  match value with
  | VBool _ | VNumber _ | VString _ => True
  | _ => False
  end ->
  (assertAllowedValue value allowed = true <->
   In value allowed /\ value <> VNumber NaN).
Proof.
  intros Hp. rewrite assertAllowedValue_spec. split.
  - intros (a & Hin & He).
    pose proof (strict_equal_plain value a Hp He) as ->.
    split; [exact Hin|]. intros ->. discriminate.
  - intros (Hin & Hn). exists value. split; [exact Hin|].
    destruct value as [| |b|n|s| |]; try contradiction; simpl.
    + destruct b; reflexivity.
    + destruct n as [|x|x]; simpl.
      * contradiction.
      * destruct x; reflexivity.
      * apply Z.eqb_refl.
    + apply String.eqb_refl.
Qed.

Lemma assertAllowedValue_plain_membership_witness :
  assertAllowedValue (VNumber NaN) [VNumber NaN] = false
  /\ assertAllowedValue (VString "5") [VNumber (Int 5)] = false.
Proof.
  split.
  - destruct (assertAllowedValue (VNumber NaN) [VNumber NaN]) eqn:E;
      [|reflexivity].
    apply (assertAllowedValue_plain_membership (VNumber NaN) [VNumber NaN] I)
      in E.
    destruct E as [_ E]. contradiction E. reflexivity.
  - destruct (assertAllowedValue (VString "5") [VNumber (Int 5)]) eqn:E;
      [|reflexivity].
    apply (assertAllowedValue_plain_membership (VString "5")
             [VNumber (Int 5)] I) in E.
    destruct E as [[E|[]] _]. discriminate E.
Defined.

Lemma Object_keys_push (path : string) (v : Violation) (errors : Collector) :
  Object_keys (push path v errors) = Object_keys errors.
Proof.
  unfold Object_keys.
  induction errors as [|[q l] errors IH]; [reflexivity|].
  simpl. destruct (String.eqb q path); simpl; [reflexivity|].
  rewrite IH. reflexivity.
Qed.

Lemma lookup_some_in_keys {A : Type} (k : string) (a : A)
  (l : list (string * A)) :
  lookup k l = Some a -> In k (Object_keys l).
Proof.
  induction l as [|[k' a'] l IH]; [discriminate|].
  simpl. destruct (String.eqb k' k) eqn:E.
  - intros _. left. apply String.eqb_eq, E.
  - intros H. right. apply IH, H.
Qed.

(** X8.  When [addError] returns, the error is the last one under its
    path, the errors that were there come before it in their order, no other
    path is touched, and the paths of the collector are those it had,
    together with the path of the error. *)
Theorem addError_appends (path : string) (error : Violation)
  (errors : Collector) :
  fst (addError path error errors) = Done tt ->
  let errors' := snd (addError path error errors) in
  violations_of path errors' = violations_of path errors ++ [error]
  /\ (forall p, p <> path -> lookup p errors' = lookup p errors)
  /\ (forall p, In p (Object_keys errors') <->
                In p (Object_keys errors) \/ p = path).
Proof.
  intros Hd errors'. subst errors'.
  destruct (addError_cases path error errors) as [E|(_ & _ & e & E)];
    rewrite E in Hd |- *; [|discriminate].
  cbn [snd]. split; [apply violations_of_record1|]. split.
  - intros p Hp. apply (lookup_record_other p path [error] errors Hp).
  - intros p. unfold record1.
    destruct (lookup path errors) as [l|] eqn:El.
    + rewrite Object_keys_push. split; [intros H; left; exact H|].
      intros [H| ->]; [exact H|]. apply (lookup_some_in_keys _ _ _ El).
    + unfold Object_keys. rewrite map_app, in_app_iff. cbn [map fst In].
      split.
      * intros [H|[H|[]]]; [left; exact H|right; symmetry; exact H].
      * intros [H| ->]; [left; exact H|right; left; reflexivity].
Qed.

Lemma addError_appends_witness :
  fst (addError "/a.md" EMPTY_KEY [("/a.md", [MISSING_KEY "title"])]) = Done tt
  /\ violations_of "/a.md"
       (snd (addError "/a.md" EMPTY_KEY [("/a.md", [MISSING_KEY "title"])])) =
     [MISSING_KEY "title"; EMPTY_KEY].
Proof.
  split; [reflexivity|].
  exact (proj1 (addError_appends "/a.md" EMPTY_KEY
                  [("/a.md", [MISSING_KEY "title"])] eq_refl)).
Defined.

(** X9.  [addError] throws in one situation only: the path is the name of
    a property every object inherits ([constructor], [toString], ...) and
    has no entry of its own.  The collector is then left as it was. *)
Theorem addError_throws_iff (path : string) (error : Violation)
  (errors : Collector) :
  ((exists e, fst (addError path error errors) = Thrown e) <->
   inherited path = true /\ lookup path errors = None)
  /\ ((exists e, fst (addError path error errors) = Thrown e) ->
      snd (addError path error errors) = errors).
Proof.
  unfold addError.
  destruct (lookup path errors) eqn:El; cbn [fst snd].
  - split; [split|].
    + intros (e & H). discriminate.
    + intros (_ & H). discriminate.
    + intros (e & H). discriminate.
  - destruct (inherited path); cbn [fst snd].
    + split; [split|]; auto. intros _. eexists. reflexivity.
    + split; [split|].
      * intros (e & H). discriminate.
      * intros (H & _). discriminate.
      * intros (e & H). discriminate.
Qed.

Lemma addError_throws_iff_witness :
  inherited "constructor" = true
  /\ exists e, fst (addError "constructor" EMPTY_KEY []) = Thrown e.
Proof.
  split; [reflexivity|].
  exact (proj2 (proj1 (addError_throws_iff "constructor" EMPTY_KEY []))
           (conj eq_refl eq_refl)).
Defined.

(** ** More on the pass over one page *)

Lemma violations_of_record_other (p path : string) (vs : list Violation)
  (errors : Collector) :
  p <> path -> violations_of p (record path vs errors) = violations_of p errors.
Proof.
  intros Hp. unfold violations_of. rewrite (lookup_record_other _ _ _ _ Hp).
  reflexivity.
Qed.

Lemma record_injective (path : string) (vs ws : list Violation)
  (errors : Collector) :
  record path vs errors = record path ws errors -> vs = ws.
Proof.
  intros H. apply (f_equal (violations_of path)) in H.
  rewrite !violations_of_record in H. apply app_inv_head in H. exact H.
Qed.

Lemma uniform_canonical (path : string) (m : M unit) (o : Outcome unit)
  (vs : list Violation) :
  Uniform path m o vs -> Uniform path m (fst (m [])) (emitted m path).
Proof.
  intros H errors. unfold emitted. rewrite (H errors), (H []). cbn [fst snd].
  rewrite violations_of_record. reflexivity.
Qed.

Lemma forEach_done {A : Type} (f : A -> M unit) (l : list A) :
  (forall a errors, In a l -> fst (f a errors) = Done tt) ->
  forall errors, fst (forEach f l errors) = Done tt.
Proof.
  induction l as [|a l IH]; intros H errors; [reflexivity|].
  cbn [forEach]. unfold bind.
  pose proof (H a errors (or_introl eq_refl)) as Ha.
  destruct (f a errors) as [[[]|e] errors1]; [|discriminate].
  apply IH. intros b errs Hb. apply H. right. exact Hb.
Qed.

Lemma sweep_in {A : Type} (g : A -> Outcome unit * list Violation)
  (l : list A) (v : Violation) :
  In v (snd (sweep g l)) -> exists a, In a l /\ In v (snd (g a)).
Proof.
  induction l as [|a l IH]; [intros []|].
  cbn [sweep]. destruct (g a) as [[[]|e] vs] eqn:Eg.
  - destruct (sweep g l) as [o ws]. cbn [snd] in *.
    intros H. apply in_app_or in H. destruct H as [H|H].
    + exists a. split; [left; reflexivity|]. rewrite Eg. exact H.
    + destruct (IH H) as (b & Hb & Hv). exists b. split; [right|]; assumption.
  - cbn [snd]. intros H. exists a. split; [left; reflexivity|].
    rewrite Eg. exact H.
Qed.

Lemma lookup_in {A : Type} (k : string) (a : A) (l : list (string * A)) :
  In (k, a) l -> lookup k l <> None.
Proof.
  induction l as [|[k' a'] l IH]; [intros []|].
  simpl. intros [[= -> ->]|H].
  - rewrite String.eqb_refl. discriminate.
  - destruct (String.eqb k' k); [discriminate|]. apply IH, H.
Qed.

Lemma specs_entries_own (specs : Specs) (name : string) (spec : FieldSpec) :
  In (name, spec) (specs_entries specs) -> specs_own specs name <> None.
Proof.
  destruct specs; simpl; try (intros []).
  - intros H. destruct (String.eqb name "length"); [discriminate|].
    apply (lookup_in _ _ _ H).
  - apply lookup_in.
Qed.

Lemma is_required_true (spec : FieldSpec) :
  is_required spec = true <-> required spec = VBool true.
Proof.
  unfold is_required. split.
  - destruct (required spec) as [| |[|]| | | |]; simpl; try discriminate.
    reflexivity.
  - intros ->. reflexivity.
Qed.

Lemma count_key_missing (k : string) (names : list string) :
  count_key k (map MISSING_KEY names) = count_occ string_dec names k.
Proof.
  unfold count_key. induction names as [|n names IH]; [reflexivity|].
  cbn [map filter key_of count_occ].
  destruct (string_dec n k) as [->|Hne].
  - rewrite String.eqb_refl. cbn [List.length]. rewrite IH. reflexivity.
  - apply String.eqb_neq in Hne. rewrite Hne. exact IH.
Qed.

Lemma NoDup_keys_filter {A : Type} (p : string * A -> bool)
  (l : list (string * A)) :
  NoDup (Object_keys l) -> NoDup (Object_keys (filter p l)).
Proof.
  unfold Object_keys. induction l as [|[k a] l IH]; [constructor|].
  cbn [map fst filter]. intros H. inversion H as [|k' l' Hn Hd]; subst.
  destruct (p (k, a)); [|apply IH, Hd].
  cbn [map fst]. constructor; [|apply IH, Hd].
  intros Hin. apply Hn. apply in_map_iff in Hin.
  destruct Hin as (x & Hx & Hf). apply filter_In in Hf.
  apply in_map_iff. exists x. split; [exact Hx|apply Hf].
Qed.

Section PassMore.

Variable h : Host.
Variable options : Options.
Variable page : Page.

Let path : string := regularPath page.
Let keys : list string := Object_keys (frontmatter page).
Let per_key (key : string) : Outcome unit * list Violation :=
  (fst (checkKey h (specs options) page key []),
   emitted (checkKey h (specs options) page key) path).

(** A page that is not excluded, at a path that is no inherited name: the
    outcome and the errors recorded do not depend on the collector. *)
Lemma extendPageData_sweep :
  inherited path = false ->
  mm h [regularPath page] (exclude_patterns options) = [] ->
  Uniform path (extendPageData h options page) (fst (sweep per_key keys))
    (missing_keys (specs options) page ++ snd (sweep per_key keys)).
Proof.
  intros Hi Hex errors. unfold extendPageData.
  rewrite Hex. cbn [List.length Nat.eqb negb]. unfold bind.
  rewrite (required_loop_uniform options page Hi errors). cbv beta iota.
  assert (E : Uniform path (forEach (checkKey h (specs options) page) keys)
                (fst (sweep per_key keys)) (snd (sweep per_key keys))).
  { apply forEach_uniform. intros key _.
    apply (checkKey_uniform h options page key Hi). }
  fold keys. rewrite E, record_app. reflexivity.
Qed.

Lemma extendPageData_uniform :
  inherited path = false ->
  Uniform path (extendPageData h options page)
    (fst (extendPageData h options page []))
    (emitted (extendPageData h options page) path).
Proof.
  intros Hi.
  destruct (mm h [regularPath page] (exclude_patterns options)) eqn:Hex.
  - apply (uniform_canonical _ _ _ _ (extendPageData_sweep Hi Hex)).
  - apply (uniform_canonical path _ (Done tt) []).
    intros errors. unfold extendPageData. rewrite Hex. reflexivity.
Qed.

(** X10.  Validating a page touches no other path of the collector, and
    under the page's own path it only appends: what was recorded before is
    still there, in front. *)
Theorem extendPageData_touches_own_path (errors : Collector) :
  let errors' := snd (extendPageData h options page errors) in
  (forall p, p <> regularPath page -> lookup p errors' = lookup p errors)
  /\ exists vs,
       violations_of (regularPath page) errors' =
       violations_of (regularPath page) errors ++ vs.
Proof.
  intros errors'. subst errors'.
  destruct (extendPageData_records h options page errors) as (vs & ->).
  split.
  - intros p Hp. apply (lookup_record_other _ _ _ _ Hp).
  - exists vs. apply violations_of_record.
Qed.

(** X11.  With distinct field names in the schema and distinct keys in the
    frontmatter, a pass records at most one error about any key, the
    MISSING_KEY errors of the required sweep counted in: a field reported
    missing gets no error from the key loop, and conversely. *)
Theorem one_violation_per_key_in_pass (errors : Collector) :
  inherited (regularPath page) = false ->
  mm h [regularPath page] (exclude_patterns options) = [] ->
  NoDup (Object_keys (specs_entries (specs options))) ->
  NoDup (Object_keys (frontmatter page)) ->
  exists vs,
    snd (extendPageData h options page errors) =
    record (regularPath page) vs errors
    /\ forall k, count_key k vs <= 1.
Proof.
  intros Hi Hex Hns Hnk.
  exists (missing_keys (specs options) page ++ snd (sweep per_key keys)).
  rewrite (extendPageData_sweep Hi Hex errors). split; [reflexivity|].
  intros k. rewrite count_key_app.
  destruct (key_loop_counts h (specs options) page keys []) as (ws & Hw & Hc).
  assert (E : Uniform path (forEach (checkKey h (specs options) page) keys)
                (fst (sweep per_key keys)) (snd (sweep per_key keys))).
  { apply forEach_uniform. intros key _.
    apply (checkKey_uniform h options page key Hi). }
  rewrite (E []) in Hw. cbn [snd] in Hw.
  apply record_injective in Hw. rewrite Hw.
  specialize (Hc k).
  unfold missing_keys. rewrite count_key_missing. fold keys.
  pose proof (proj1 (NoDup_count_occ string_dec _) Hnk k) as Hk.
  fold keys in Hk.
  destruct (in_dec string_dec k keys) as [Hin|Hout].
  - assert (H0 : count_occ string_dec
                   (filter (indexOf_is_minus_one keys)
                      (Object_keys
                         (pickBy (specs_entries (specs options)) is_required)))
                   k = 0).
    { apply count_occ_not_In. intros Hf. apply filter_In in Hf.
      destruct Hf as [_ Hf]. unfold indexOf_is_minus_one in Hf.
      apply negb_true_iff in Hf.
      assert (Ht : existsb (String.eqb k) keys = true).
      { apply existsb_exists. exists k. split; [exact Hin|].
        apply String.eqb_refl. }
      congruence. }
    lia.
  - assert (H0 : count_occ string_dec keys k = 0)
      by (apply count_occ_not_In, Hout).
    assert (H1 : count_occ string_dec
                   (filter (indexOf_is_minus_one keys)
                      (Object_keys
                         (pickBy (specs_entries (specs options)) is_required)))
                   k <= 1).
    { apply (proj1 (NoDup_count_occ string_dec _)).
      apply NoDup_filter. unfold pickBy. apply NoDup_keys_filter, Hns. }
    lia.
Qed.

Lemma emitted_checkKey_not_missing (key name : string) :
  ~ In (MISSING_KEY name) (emitted (checkKey h (specs options) page key) path).
Proof.
  unfold emitted.
  destruct (checkKey_records h (specs options) page key [])
    as (vs & _ & _ & Hs).
  intros Hin.
  assert (Hv : exists v, In v (violations_of path
                 (snd (checkKey h (specs options) page key [])))
               /\ v = MISSING_KEY name) by (eexists; split; [exact Hin|reflexivity]).
  clear Hin. destruct Hv as (v & Hin & Hv).
  revert Hin Hv. clear Hs vs.
  unfold checkKey. fold path.
  assert (Hadd : forall w, w <> MISSING_KEY name ->
            In v (violations_of path (snd (addError path w []))) ->
            v = MISSING_KEY name -> False).
  { intros w Hw Hin Hv. subst v.
    destruct (addError_cases path w []) as [E|(_ & _ & e & E)];
      rewrite E in Hin; cbn [snd] in Hin.
    - rewrite violations_of_record1 in Hin. destruct Hin as [Hin|[]].
      apply Hw. exact Hin.
    - exact Hin. }
  destruct (negb (truthy (VString key))); [apply Hadd; discriminate|].
  destruct (specs_own (specs options) key) as [spec|];
    [|apply Hadd; discriminate].
  destruct (is_empty_value _); [apply Hadd; discriminate|].
  unfold bind, lift.
  destruct (assertType _ _) as [r|e]; [|intros []].
  destruct (valid r); cbn [negb].
  - destruct (allowedValues spec) as [allowed|]; [|intros []].
    destruct (assertAllowedValue _ _); cbn [negb];
      [intros []|apply Hadd; discriminate].
  - destruct (getType (type spec)) as [expected|e]; [|intros []].
    apply Hadd. discriminate.
Qed.

(** X12.  A pass reports MISSING_KEY for exactly the fields whose
    [required] is the boolean [true] and that are no key of the
    frontmatter; [required: 1] or [required: 'yes'] does not make a field
    required. *)
Theorem missing_key_exactly_for_strictly_required (errors : Collector) :
  inherited (regularPath page) = false ->
  mm h [regularPath page] (exclude_patterns options) = [] ->
  exists vs,
    snd (extendPageData h options page errors) =
    record (regularPath page) vs errors
    /\ forall name,
         In (MISSING_KEY name) vs <->
         (exists spec, In (name, spec) (specs_entries (specs options))
                       /\ required spec = VBool true)
         /\ ~ In name (Object_keys (frontmatter page)).
Proof.
  intros Hi Hex.
  exists (missing_keys (specs options) page ++ snd (sweep per_key keys)).
  rewrite (extendPageData_sweep Hi Hex errors). split; [reflexivity|].
  intros name.
  assert (Hm : In (MISSING_KEY name) (missing_keys (specs options) page) <->
               (exists spec, In (name, spec) (specs_entries (specs options))
                             /\ required spec = VBool true)
               /\ ~ In name keys).
  { unfold missing_keys. fold keys. rewrite in_map_iff. split.
    - intros (n & [= ->] & Hf). apply filter_In in Hf.
      destruct Hf as [Hn Ha]. split.
      + unfold Object_keys in Hn. apply in_map_iff in Hn.
        destruct Hn as ([n spec] & Hfst & Hp). cbn [fst] in Hfst. subst n.
        apply filter_In in Hp. destruct Hp as [Hp Hr]. cbn [snd] in Hr.
        exists spec. split; [exact Hp|]. apply is_required_true, Hr.
      + intros Hin. unfold indexOf_is_minus_one in Ha.
        apply negb_true_iff in Ha.
        assert (Ht : existsb (String.eqb name) keys = true).
        { apply existsb_exists. exists name. split; [exact Hin|].
          apply String.eqb_refl. }
        congruence.
    - intros ((spec & Hp & Hr) & Hout). exists name. split; [reflexivity|].
      apply filter_In. split.
      + unfold Object_keys. apply in_map_iff. exists (name, spec).
        split; [reflexivity|]. apply filter_In. split; [exact Hp|].
        apply is_required_true, Hr.
      + unfold indexOf_is_minus_one. apply negb_true_iff.
        destruct (existsb (String.eqb name) keys) eqn:Ee; [|reflexivity].
        apply existsb_exists in Ee. destruct Ee as (k & Hk & He).
        apply String.eqb_eq in He. subst k. contradiction. }
  rewrite in_app_iff. split.
  - intros [H|H]; [apply Hm, H|].
    apply sweep_in in H. destruct H as (key & _ & H).
    exfalso. apply (emitted_checkKey_not_missing key name H).
  - intros H. left. apply Hm, H.
Qed.

(** X13.  On a page none of whose keys is declared (an empty frontmatter
    and an empty schema are cases of it) the pass returns, having recorded a
    MISSING_KEY for every required field, in schema order, and then one error
    per key, in key order: EMPTY_KEY for the empty key and INVALID_KEY for
    any other. *)
Theorem undeclared_keys_only (errors : Collector) :
  inherited (regularPath page) = false ->
  mm h [regularPath page] (exclude_patterns options) = [] ->
  (forall key, In key (Object_keys (frontmatter page)) ->
               specs_own (specs options) key = None) ->
  extendPageData h options page errors =
  (Done tt,
   record (regularPath page)
     (map MISSING_KEY
        (Object_keys (pickBy (specs_entries (specs options)) is_required))
      ++ map undeclared_key_error (Object_keys (frontmatter page)))
     errors).
Proof.
  intros Hi Hex Hu. unfold extendPageData.
  rewrite Hex. cbn [List.length Nat.eqb negb]. unfold bind.
  rewrite (required_loop_uniform options page Hi errors). cbv beta iota.
  assert (Hm : missing_keys (specs options) page =
               map MISSING_KEY
                 (Object_keys
                    (pickBy (specs_entries (specs options)) is_required))).
  { unfold missing_keys. f_equal.
    apply forallb_filter_id. apply forallb_forall. intros name Hn.
    unfold Object_keys in Hn. apply in_map_iff in Hn.
    destruct Hn as ([n spec] & Hfst & Hp). cbn [fst] in Hfst. subst n.
    apply filter_In in Hp. destruct Hp as [Hp _].
    unfold indexOf_is_minus_one. apply negb_true_iff.
    destruct (existsb (String.eqb name) (Object_keys (frontmatter page)))
      eqn:Ee; [|reflexivity].
    apply existsb_exists in Ee. destruct Ee as (k & Hk & He).
    apply String.eqb_eq in He. subst k.
    exfalso. apply (specs_entries_own _ _ _ Hp). apply Hu, Hk. }
  rewrite Hm.
  pose (g := fun key : string => (Done tt, [undeclared_key_error key])).
  assert (E : Uniform path (forEach (checkKey h (specs options) page) keys)
                (fst (sweep g keys)) (snd (sweep g keys))).
  { apply forEach_uniform. intros key Hin errs. unfold g. cbn [fst snd].
    unfold checkKey, undeclared_key_error. fold path. cbn [truthy].
    destruct (String.eqb key EmptyString); cbn [negb].
    - apply addError_ok, Hi.
    - rewrite (Hu key Hin). apply addError_ok, Hi. }
  fold keys. rewrite E. unfold g.
  rewrite (sweep_all_done (fun key => [undeclared_key_error key])).
  cbn [fst snd]. rewrite record_app.
  assert (Hf : forall l : list string,
             flat_map (fun key => [undeclared_key_error key]) l =
             map undeclared_key_error l).
  { induction l as [|k ks IH]; [reflexivity|].
    cbn [flat_map map app]. rewrite IH. reflexivity. }
  rewrite Hf. reflexivity.
Qed.

End PassMore.

(** ** Several passes *)

(** X14.  Two pages at different paths can be validated in either order:
    the errors found under every path are the same. *)
Theorem validation_order_irrelevant (h : Host) (options : Options)
  (page1 page2 : Page) (errors : Collector) (p : string) :
  inherited (regularPath page1) = false ->
  inherited (regularPath page2) = false ->
  regularPath page1 <> regularPath page2 ->
  violations_of p
    (snd (extendPageData h options page2
            (snd (extendPageData h options page1 errors)))) =
  violations_of p
    (snd (extendPageData h options page1
            (snd (extendPageData h options page2 errors)))).
Proof.
  intros H1 H2 Hne.
  pose proof (extendPageData_uniform h options page1 H1) as U1.
  pose proof (extendPageData_uniform h options page2 H2) as U2.
  rewrite (U1 errors), (U2 errors). cbn [snd]. rewrite U1, U2. cbn [snd].
  set (vs1 := emitted (extendPageData h options page1) (regularPath page1)).
  set (vs2 := emitted (extendPageData h options page2) (regularPath page2)).
  destruct (string_dec p (regularPath page1)) as [->|Hp1].
  - rewrite (violations_of_record_other _ _ vs2) by exact Hne.
    rewrite !violations_of_record.
    rewrite (violations_of_record_other _ _ vs2) by exact Hne.
    reflexivity.
  - destruct (string_dec p (regularPath page2)) as [->|Hp2].
    + rewrite (violations_of_record_other _ _ vs1) by exact Hp1.
      rewrite !violations_of_record.
      rewrite (violations_of_record_other _ _ vs1) by exact Hp1.
      reflexivity.
    + rewrite !violations_of_record_other by assumption. reflexivity.
Qed.

Lemma validation_order_irrelevant_witness :
  inherited (regularPath page_a) = false
  /\ inherited (regularPath page_d) = false
  /\ regularPath page_a <> regularPath page_d
  /\ violations_of "/a.md"
       (snd (extendPageData sample_host (sample_options title_schema) page_d
               (snd (extendPageData sample_host (sample_options title_schema)
                       page_a [])))) =
     violations_of "/a.md"
       (snd (extendPageData sample_host (sample_options title_schema) page_a
               (snd (extendPageData sample_host (sample_options title_schema)
                       page_d [])))).
Proof.
  assert (Hne : regularPath page_a <> regularPath page_d) by discriminate.
  split; [reflexivity|]. split; [reflexivity|]. split; [exact Hne|].
  exact (validation_order_irrelevant sample_host (sample_options title_schema)
           page_a page_d [] "/a.md" eq_refl eq_refl Hne).
Defined.

(** X15.  Validating the same page a second time records its errors a
    second time, after the first ones: nothing is replaced or removed. *)
Theorem second_pass_records_again (h : Host) (options : Options) (page : Page)
  (errors : Collector) :
  inherited (regularPath page) = false ->
  let vs := emitted (extendPageData h options page) (regularPath page) in
  snd (extendPageData h options page
         (snd (extendPageData h options page errors))) =
  record (regularPath page) (vs ++ vs) errors.
Proof.
  intros Hi vs.
  pose proof (extendPageData_uniform h options page Hi) as U.
  rewrite (U errors). cbn [snd]. rewrite U. cbn [snd].
  rewrite record_app. reflexivity.
Qed.

Lemma second_pass_records_again_witness :
  inherited (regularPath page_d) = false
  /\ snd (extendPageData sample_host (sample_options title_schema) page_d
            (snd (extendPageData sample_host (sample_options title_schema)
                    page_d []))) =
     [("/d.md", [INVALID_KEY "extra"; INVALID_KEY "extra"])].
Proof.
  split; [reflexivity|].
  rewrite (second_pass_records_again sample_host (sample_options title_schema)
             page_d [] eq_refl).
  reflexivity.
Defined.

Lemma one_violation_per_key_in_pass_witness :
  inherited (regularPath page_c) = false
  /\ NoDup (Object_keys (specs_entries title_count_schema))
  /\ NoDup (Object_keys (frontmatter page_c))
  /\ exists vs,
       snd (extendPageData sample_host (sample_options title_count_schema)
              page_c []) = record "/c.md" vs []
       /\ forall k, count_key k vs <= 1.
Proof.
  assert (Hs : NoDup (Object_keys (specs_entries title_count_schema))).
  { constructor; [intros [H|[]]; discriminate|].
    constructor; [intros []|constructor]. }
  assert (Hk : NoDup (Object_keys (frontmatter page_c))).
  { constructor; [intros []|constructor]. }
  split; [reflexivity|]. split; [exact Hs|]. split; [exact Hk|].
  exact (one_violation_per_key_in_pass sample_host
           (sample_options title_count_schema) page_c [] eq_refl eq_refl
           Hs Hk).
Defined.

Lemma missing_key_exactly_for_strictly_required_witness :
  inherited (regularPath page_c) = false
  /\ exists vs,
       snd (extendPageData sample_host (sample_options title_count_schema)
              page_c []) = record "/c.md" vs []
       /\ (In (MISSING_KEY "title") vs <->
           (exists spec,
              In ("title", spec) (specs_entries title_count_schema)
              /\ required spec = VBool true)
           /\ ~ In "title" (Object_keys (frontmatter page_c))).
Proof.
  split; [reflexivity|].
  destruct (missing_key_exactly_for_strictly_required sample_host
              (sample_options title_count_schema) page_c [] eq_refl eq_refl)
    as (vs & Hs & Hm).
  exists vs. split; [exact Hs|]. exact (Hm "title").
Defined.

Lemma undeclared_keys_only_witness :
  inherited (regularPath page_c) = false
  /\ (forall key, In key (Object_keys (frontmatter page_c)) ->
                  specs_own title_schema key = None)
  /\ extendPageData sample_host (sample_options title_schema) page_c [] =
     (Done tt, [("/c.md", [MISSING_KEY "title"; INVALID_KEY "count"])]).
Proof.
  assert (Hu : forall key, In key (Object_keys (frontmatter page_c)) ->
                           specs_own title_schema key = None).
  { intros key [<-|[]]. reflexivity. }
  split; [reflexivity|]. split; [exact Hu|].
  rewrite (undeclared_keys_only sample_host (sample_options title_schema)
             page_c [] eq_refl eq_refl Hu).
  reflexivity.
Defined.

(** ** [ready] and [module.exports] *)

(** X16.  For a hook that returns a mapping and a dump that is written,
    [ready] leaves the collector empty; without a hook, calling it again
    right away does nothing. *)
Theorem ready_drains (options : Options) (sourceDir : string)
  (errors : Collector) :
  snd (ready options sourceDir errors) = []
  /\ (postProcessErrors options = None ->
      ready options sourceDir (snd (ready options sourceDir errors)) = ([], [])).
Proof.
  split; [apply ready_resets|].
  intros Hp. rewrite ready_resets. unfold ready. rewrite Hp. reflexivity.
Qed.

Lemma ready_drains_witness :
  postProcessErrors (sample_options title_schema) = None
  /\ ready (sample_options title_schema) "docs"
       (snd (ready (sample_options title_schema) "docs"
               [("/a.md", [MISSING_KEY "title"])])) = ([], []).
Proof.
  split; [reflexivity|].
  exact (proj2 (ready_drains (sample_options title_schema) "docs"
                  [("/a.md", [MISSING_KEY "title"])]) eq_refl).
Defined.

(** X17.  What [ready] does depends on the errors left after the
    post-processing hook: with none left it does nothing at all, even if
    errors had been collected; otherwise it reports them first, dumps them to
    the file exactly when [dumpToFile] is set, and aborts the build exactly
    when [abortBuild] is set. *)
Theorem ready_effects (options : Options) (sourceDir : string)
  (errors : Collector) :
  let processed :=
    match postProcessErrors options with
    | Some f => f errors sourceDir
    | None => errors
    end in
  let out := fst (ready options sourceDir errors) in
  (out = [] <-> processed = [])
  /\ (processed <> [] -> exists rest, out = ConsoleReport processed :: rest)
  /\ (In AbortBuild out <-> abortBuild options = true /\ processed <> [])
  /\ ((exists e f d, In (DumpErrorsToFile e f d) out) <->
      dumpToFile options = true /\ processed <> []).
Proof.
  intros processed out. subst out. unfold ready. fold processed.
  destruct processed as [|entry rest]; cbn [Object_keys map List.length
                                             Nat.eqb negb fst].
  - split; [split; reflexivity|]. split; [intros H; contradiction|].
    split; split.
    + intros [].
    + intros [_ H]. contradiction.
    + intros (e & f & d & []).
    + intros [_ H]. contradiction.
  - split; [split; discriminate|]. split; [intros _; eexists; reflexivity|].
    split; split.
    + intros [H|H]; [discriminate|]. cbn [app] in H.
      apply in_app_or in H. destruct H as [H|H]; revert H.
      * destruct (dumpToFile options); simpl; [|intros []].
        intros [H|[]]. discriminate.
      * destruct (abortBuild options); simpl; [|intros []].
        intros _. split; [reflexivity|discriminate].
    + intros [Ha _]. rewrite Ha. cbn [app].
      apply in_cons, in_or_app. right. apply in_eq.
    + intros (e & f & d & [H|H]); [discriminate|]. cbn [app] in H.
      apply in_app_or in H. destruct H as [H|H]; revert H.
      * destruct (dumpToFile options); simpl; [|intros []].
        intros _. split; [reflexivity|discriminate].
      * destruct (abortBuild options); simpl; [|intros []].
        intros [H|[]]. discriminate.
    + intros [Hd _]. rewrite Hd. cbn [app]. eexists. eexists. eexists.
      apply in_cons, in_eq.
Qed.

Lemma ready_effects_witness :
  fst (ready silencing_options "docs" [("/a.md", [MISSING_KEY "title"])]) = [].
Proof.
  exact (proj2 (proj1 (ready_effects silencing_options "docs"
                         [("/a.md", [MISSING_KEY "title"])])) eq_refl).
Defined.

(** X18.  [module.exports] installs the hooks exactly when [specs] is an
    array or an object, and then logs nothing; in every other case it logs
    exactly one message. *)
Theorem hooks_iff_array_or_object (options : Options) :
  (snd (module_exports options) = WithHooks <->
   (exists elems, specs options = SpecsArray elems)
   \/ (exists fields, specs options = SpecsObject fields))
  /\ (snd (module_exports options) = WithHooks ->
      fst (module_exports options) = [])
  /\ (snd (module_exports options) = NameOnly ->
      List.length (fst (module_exports options)) = 1).
Proof.
  unfold module_exports.
  destruct (specs options) as [| |b|n|s| | |elems|fields] eqn:Es;
    cbn [specs_truthy specs_typeof negb].
  1,2,6,7: (split; [split; [discriminate|intros [(x & H)|(x & H)]; discriminate]
                   |split; [discriminate|reflexivity]]).
  - destruct b; cbn [negb]; (split; [split; [discriminate|
      intros [(x & H)|(x & H)]; discriminate]|split; [discriminate|reflexivity]]).
  - destruct (truthy (VNumber n)); cbn [negb];
      (split; [split; [discriminate|
        intros [(x & H)|(x & H)]; discriminate]|split; [discriminate|reflexivity]]).
  - destruct (truthy (VString s)); cbn [negb];
      (split; [split; [discriminate|
        intros [(x & H)|(x & H)]; discriminate]|split; [discriminate|reflexivity]]).
  - split; [split; [intros _; left; eexists; reflexivity|reflexivity]|].
    split; [reflexivity|discriminate].
  - split; [split; [intros _; right; eexists; reflexivity|reflexivity]|].
    split; [reflexivity|discriminate].
Qed.

Lemma hooks_iff_array_or_object_witness :
  snd (module_exports (sample_options SpecsNull)) = NameOnly
  /\ List.length (fst (module_exports (sample_options SpecsNull))) = 1.
Proof.
  split; [reflexivity|].
  exact (proj2 (proj2 (hooks_iff_array_or_object (sample_options SpecsNull)))
           eq_refl).
Defined.

(** ** The console report *)

Lemma no_path_line_in_error_lines (l : list Violation) :
  filter is_PathLine (flat_map error_lines l) = [].
Proof.
  induction l as [|e l IH]; [reflexivity|].
  cbn [flat_map]. rewrite filter_app, IH, app_nil_r.
  destruct e; cbn [error_lines error_expected error_got truthy];
    repeat match goal with
           | |- context [if ?b then _ else _] => destruct b
           end; reflexivity.
Qed.

(** X19.  The report names every path of the collector once, in the
    collector's order. *)
Theorem report_lists_each_path_once (errors : Collector) :
  filter is_PathLine (generateConsoleReport errors) =
  map PathLine (Object_keys errors).
Proof.
  unfold generateConsoleReport. cbn [filter is_PathLine].
  rewrite filter_app. cbn [filter is_PathLine]. rewrite app_nil_r.
  induction (Object_keys errors) as [|path paths IH]; [reflexivity|].
  cbn [flat_map map]. rewrite filter_app. cbn [filter is_PathLine].
  rewrite filter_app, no_path_line_in_error_lines. cbn [filter is_PathLine app].
  rewrite IH. reflexivity.
Qed.

Lemma got_in_field_lines (name key : string) (ex got g : Value) :
  In (GotLine g)
    (FieldErrorLine name key
     :: (if truthy ex then [ExpectedLine ex] else [])
     ++ (if truthy got then [GotLine got] else [])) <->
  got = g /\ truthy g = true.
Proof.
  cbn [In]. rewrite in_app_iff. split.
  - intros [H|[H|H]]; [discriminate| |].
    + destruct (truthy ex); cbn [In] in H; [|destruct H].
      destruct H as [H|H]; [discriminate|destruct H].
    + destruct (truthy got) eqn:Eg; cbn [In] in H; [|destruct H].
      destruct H as [H|H]; [|destruct H].
      injection H as <-. split; [reflexivity|exact Eg].
  - intros [<- Hg]. right. right. rewrite Hg. left. reflexivity.
Qed.

Lemma got_line_in_error_lines (e : Violation) (g : Value) :
  In (GotLine g) (error_lines e) <-> error_got e = g /\ truthy g = true.
Proof.
  destruct e.
  2:{ cbn. split.
      - intros [H|[]]. discriminate.
      - intros [<- H]. discriminate. }
  all: apply got_in_field_lines.
Qed.

(** X20.  The report shows what was got for an error exactly when the
    error's [got] is truthy: an INVALID_VALUE about [0], [false], [NaN] or
    the empty string is reported without it. *)
Theorem report_shows_truthy_got_only (errors : Collector) (g : Value) :
  In (GotLine g) (generateConsoleReport errors) <->
  exists path e,
    In path (Object_keys errors) /\ In e (violations_of path errors)
    /\ error_got e = g /\ truthy g = true.
Proof.
  unfold generateConsoleReport. split.
  - intros [H|H]; [discriminate|].
    apply in_app_or in H. destruct H as [H|[H|[]]]; [|discriminate].
    apply in_flat_map in H. destruct H as (path & Hp & [H|H]); [discriminate|].
    apply in_app_or in H. destruct H as [H|[H|[]]]; [|discriminate].
    apply in_flat_map in H. destruct H as (e & He & H).
    apply got_line_in_error_lines in H.
    exists path, e. tauto.
  - intros (path & e & Hp & He & Hg). right. apply in_or_app. left.
    apply in_flat_map. exists path. split; [exact Hp|]. right.
    apply in_or_app. left. apply in_flat_map. exists e. split; [exact He|].
    apply got_line_in_error_lines, Hg.
Qed.

(** ** The errors a pass records about one key *)

Lemma errors_about_app (key : string) (vs ws : list Violation) :
  errors_about key (vs ++ ws) = errors_about key vs ++ errors_about key ws.
Proof. apply filter_app. Qed.

Lemma errors_about_none (key : string) (vs : list Violation) :
  (forall v, In v vs -> key_of v <> key) -> errors_about key vs = [].
Proof.
  induction vs as [|v vs IH]; intros H; [reflexivity|].
  unfold errors_about in *. cbn [filter].
  assert (Hv : String.eqb (key_of v) key = false).
  { apply String.eqb_neq. apply H. left. reflexivity. }
  rewrite Hv. apply IH. intros w Hw. apply H. right. exact Hw.
Qed.

Lemma errors_about_all (key : string) (vs : list Violation) :
  (forall v, In v vs -> key_of v = key) -> errors_about key vs = vs.
Proof.
  induction vs as [|v vs IH]; intros H; [reflexivity|].
  unfold errors_about in *. cbn [filter].
  rewrite (H v (or_introl eq_refl)), String.eqb_refl.
  f_equal. apply IH. intros w Hw. apply H. right. exact Hw.
Qed.

Lemma errors_about_flat_map (g : string -> list Violation) (l : list string)
  (key : string) :
  (forall a v, In v (g a) -> key_of v = a) ->
  NoDup l -> In key l -> errors_about key (flat_map g l) = g key.
Proof.
  intros Hg Hnd Hin.
  induction l as [|a l IH]; [destruct Hin|].
  cbn [flat_map]. rewrite errors_about_app.
  inversion Hnd as [|a' l' Hna Hnd']; subst.
  destruct Hin as [->|Hin].
  - rewrite (errors_about_all key (g key)) by apply Hg.
    rewrite (errors_about_none key (flat_map g l)); [apply app_nil_r|].
    intros v Hv. apply in_flat_map in Hv. destruct Hv as (b & Hb & Hv).
    rewrite (Hg b v Hv). intros ->. contradiction.
  - rewrite (errors_about_none key (g a)); [apply (IH Hnd' Hin)|].
    intros v Hv. rewrite (Hg a v Hv). intros ->. contradiction.
Qed.

Section KeyInPass.

Variable h : Host.
Variable options : Options.
Variable page : Page.

Let path : string := regularPath page.
Let keys : list string := Object_keys (frontmatter page).
Let key_errors (key : string) : list Violation :=
  emitted (checkKey h (specs options) page key) path.

Lemma key_errors_key (key : string) (v : Violation) :
  In v (key_errors key) -> key_of v = key.
Proof.
  unfold key_errors, emitted.
  destruct (checkKey_records h (specs options) page key [])
    as (vs & _ & Hk & Hs).
  rewrite Hs, violations_of_record. apply Hk.
Qed.

Lemma key_errors_addError (key : string) (v : Violation) :
  inherited path = false ->
  checkKey h (specs options) page key [] = addError path v [] ->
  key_errors key = [v].
Proof.
  intros Hi H. unfold key_errors, emitted.
  rewrite H, (addError_ok _ _ _ Hi). cbn [snd].
  rewrite violations_of_record. reflexivity.
Qed.

Lemma key_errors_nothing (key : string) :
  checkKey h (specs options) page key [] = (Done tt, []) ->
  key_errors key = [].
Proof. intros H. unfold key_errors, emitted. rewrite H. reflexivity. Qed.

Lemma errors_about_missing (key : string) :
  In key keys -> errors_about key (missing_keys (specs options) page) = [].
Proof.
  intros Hin. apply errors_about_none. intros v Hv.
  unfold missing_keys in Hv. apply in_map_iff in Hv.
  destruct Hv as (name & <- & Hf). apply filter_In in Hf.
  destruct Hf as [_ Ha]. cbn [key_of]. intros ->.
  unfold indexOf_is_minus_one in Ha. apply negb_true_iff in Ha.
  assert (Ht : existsb (String.eqb key) (Object_keys (frontmatter page))
               = true).
  { apply existsb_exists. exists key. split; [exact Hin|].
    apply String.eqb_refl. }
  congruence.
Qed.

Lemma key_loop_exact (errors : Collector) :
  inherited path = false ->
  fst (forEach (checkKey h (specs options) page) keys errors) = Done tt ->
  snd (forEach (checkKey h (specs options) page) keys errors) =
  record path (flat_map key_errors keys) errors.
Proof.
  intros Hi.
  pose (g := fun key => (fst (checkKey h (specs options) page key []),
                         key_errors key)).
  assert (E : Uniform path (forEach (checkKey h (specs options) page) keys)
                (fst (sweep g keys)) (snd (sweep g keys))).
  { apply forEach_uniform. intros key _.
    apply (checkKey_uniform h options page key Hi). }
  rewrite (E errors). cbn [fst snd]. intros Hd.
  rewrite (sweep_done g keys Hd). reflexivity.
Qed.

(** In a pass that returns over a page that is not excluded, the errors
    recorded about a key of the frontmatter are those of the key's own
    callback. *)
Lemma errors_about_key (errors : Collector) (key : string) :
  inherited path = false ->
  mm h [regularPath page] (exclude_patterns options) = [] ->
  NoDup keys -> In key keys ->
  fst (extendPageData h options page errors) = Done tt ->
  exists vs,
    snd (extendPageData h options page errors) = record path vs errors
    /\ errors_about key vs = key_errors key.
Proof.
  intros Hi Hex Hnd Hin.
  pose (g := fun key => (fst (checkKey h (specs options) page key []),
                         key_errors key)).
  rewrite (extendPageData_sweep h options page Hi Hex errors).
  change (fun key : string =>
            (fst (checkKey h (specs options) page key []),
             emitted (checkKey h (specs options) page key)
               (regularPath page))) with g.
  cbn [fst snd]. intros Hd.
  exists (missing_keys (specs options) page ++ snd (sweep g keys)).
  split; [reflexivity|].
  rewrite errors_about_app, (errors_about_missing key Hin).
  rewrite (sweep_done g keys Hd). cbn [app].
  apply (errors_about_flat_map key_errors keys key key_errors_key Hnd Hin).
Qed.

(** C1.  The per-key pass records at most one error per frontmatter key
    (the keys of an object are distinct); when it returns, what it has
    recorded is what the callbacks of the keys yield, key after key, and the
    errors the hook has recorded about a key are those of the key's callback.
    The callback tries EMPTY_KEY, INVALID_KEY, EMPTY_VALUE, INVALID_TYPE and
    INVALID_VALUE in this order and stops at the first that applies: each
    case is one single call of [addError], or none.  For a key whose value
    the type matcher finds invalid, a hook that returns has recorded one
    error about the key, the INVALID_TYPE, and so no INVALID_VALUE, whether
    or not the entry has [allowedValues]. *)
Theorem per_key_chain :
  (NoDup keys ->
   forall errors, exists vs,
     snd (forEach (checkKey h (specs options) page) keys errors) =
     record path vs errors
     /\ forall k, count_key k vs <= 1)
  /\
  (inherited path = false ->
   forall errors,
     fst (forEach (checkKey h (specs options) page) keys errors) = Done tt ->
     snd (forEach (checkKey h (specs options) page) keys errors) =
     record path
       (flat_map
          (fun key => emitted (checkKey h (specs options) page key) path)
          keys)
       errors)
  /\
  (inherited path = false ->
   mm h [regularPath page] (exclude_patterns options) = [] ->
   NoDup keys ->
   forall errors key,
     In key keys ->
     fst (extendPageData h options page errors) = Done tt ->
     exists vs,
       snd (extendPageData h options page errors) = record path vs errors
       /\ errors_about key vs =
          emitted (checkKey h (specs options) page key) path
       /\ forall spec r,
            key <> EmptyString ->
            specs_own (specs options) key = Some spec ->
            is_empty_value (get (frontmatter page) key) = false ->
            assertType h (get (frontmatter page) key) (type spec) = Done r ->
            valid r = false ->
            errors_about key vs =
            [INVALID_TYPE key (expectedType r)
               (typeof (get (frontmatter page) key))])
  /\
  (forall key errors,
     let value := get (frontmatter page) key in
     let result := checkKey h (specs options) page key errors in
     (exists vs, List.length vs <= 1 /\ (forall v, In v vs -> key_of v = key)
                 /\ snd result = record path vs errors)
     /\ (key = EmptyString -> result = addError path EMPTY_KEY errors)
     /\ (key <> EmptyString -> specs_own (specs options) key = None ->
         result = addError path (INVALID_KEY key) errors)
     /\ (forall spec,
           key <> EmptyString -> specs_own (specs options) key = Some spec ->
           (is_empty_value value = true ->
            result = addError path (EMPTY_VALUE key) errors)
           /\
           (forall r,
              is_empty_value value = false ->
              assertType h value (type spec) = Done r ->
              (valid r = false ->
               result = addError path
                          (INVALID_TYPE key (expectedType r) (typeof value))
                          errors
               /\ (inherited path = false ->
                   violations_of path (snd result) =
                   violations_of path errors
                   ++ [INVALID_TYPE key (expectedType r) (typeof value)]))
              /\
              (valid r = true ->
               (forall allowed,
                  allowedValues spec = Some allowed ->
                  assertAllowedValue value allowed = false ->
                  result = addError path
                             (INVALID_VALUE key (JSON_stringify h allowed)
                                value) errors)
               /\
               (allowedValues spec = None
                \/ (exists allowed, allowedValues spec = Some allowed
                    /\ assertAllowedValue value allowed = true) ->
                result = (Done tt, errors)))))).
Proof.
  split; [|split; [|split]].
  - intros Hnd errors.
    destruct (key_loop_counts h (specs options) page keys errors)
      as (vs & Hs & Hc).
    exists vs. split; [exact Hs|].
    intros k. specialize (Hc k).
    pose proof (proj1 (NoDup_count_occ string_dec _) Hnd k). lia.
  - intros Hi errors. apply (key_loop_exact errors Hi).
  - intros Hi Hex Hnd errors key Hin Hd.
    destruct (errors_about_key errors key Hi Hex Hnd Hin Hd) as (vs & Hs & Ha).
    exists vs. split; [exact Hs|]. split; [exact Ha|].
    intros spec r Hne Hown He Hr Hv. rewrite Ha.
    apply (key_errors_addError key _ Hi).
    destruct (checkKey_chain h (specs options) page key [])
      as (_ & _ & _ & Hspec).
    destruct (Hspec spec Hne Hown) as (_ & Htype).
    destruct (Htype r He Hr) as (Hinvalid & _).
    apply (proj1 (Hinvalid Hv)).
  - apply checkKey_chain.
Qed.

(** C10, amended.  Membership in [allowedValues] is decided by [===]
    alone.  Take a key of a page that is not excluded, non-empty and declared,
    whose value is not empty and passes the type matcher, under an entry that
    has [allowedValues], and a hook that returns.  If the value is identical
    with no element, the hook has recorded one error about the key, an
    INVALID_VALUE: so it is for an object that is deep-equal to an element
    without being one.  If the value is identical with some element, the
    hook has recorded no error about the key. *)
Theorem allowed_values_compare_by_identity (errors : Collector)
  (key : string) (spec : FieldSpec) (r : AssertResult)
  (allowed : list Value) :
  let value := get (frontmatter page) key in
  inherited path = false ->
  mm h [regularPath page] (exclude_patterns options) = [] ->
  NoDup keys -> In key keys ->
  key <> EmptyString -> specs_own (specs options) key = Some spec ->
  is_empty_value value = false ->
  assertType h value (type spec) = Done r -> valid r = true ->
  allowedValues spec = Some allowed ->
  fst (extendPageData h options page errors) = Done tt ->
  exists vs,
    snd (extendPageData h options page errors) = record path vs errors
    /\ ((forall a, In a allowed -> strict_equal value a = false) ->
        errors_about key vs =
        [INVALID_VALUE key (JSON_stringify h allowed) value])
    /\ ((exists a, In a allowed /\ strict_equal value a = true) ->
        errors_about key vs = []).
Proof.
  intros value Hi Hex Hnd Hin Hne Hown He Hr Hv Hal Hd.
  destruct (errors_about_key errors key Hi Hex Hnd Hin Hd) as (vs & Hs & Ha).
  exists vs. split; [exact Hs|].
  destruct (checkKey_chain h (specs options) page key [])
    as (_ & _ & _ & Hspec).
  destruct (Hspec spec Hne Hown) as (_ & Htype).
  destruct (Htype r He Hr) as (_ & Hvalid).
  destruct (Hvalid Hv) as (Hout & Hpass).
  split.
  - intros Hnone. rewrite Ha. apply (key_errors_addError key _ Hi).
    apply (Hout allowed Hal). apply assertAllowedValue_none, Hnone.
  - intros Hsome. rewrite Ha. apply key_errors_nothing.
    apply Hpass. right. exists allowed. split; [exact Hal|].
    apply assertAllowedValue_spec, Hsome.
Qed.

End KeyInPass.

Lemma per_key_chain_witness :
  inherited (regularPath page_c) = false
  /\ NoDup (Object_keys (frontmatter page_c))
  /\ In "count" (Object_keys (frontmatter page_c))
  /\ fst (extendPageData sample_host (sample_options title_count_schema)
            page_c []) = Done tt
  /\ exists vs,
       snd (extendPageData sample_host (sample_options title_count_schema)
              page_c []) = record "/c.md" vs []
       /\ errors_about "count" vs = [INVALID_TYPE "count" "Number" "string"].
Proof.
  assert (Hnd : NoDup (Object_keys (frontmatter page_c))).
  { constructor; [intros []|constructor]. }
  assert (Hin : In "count" (Object_keys (frontmatter page_c)))
    by (left; reflexivity).
  split; [reflexivity|]. split; [exact Hnd|]. split; [exact Hin|].
  split; [reflexivity|].
  destruct (per_key_chain sample_host (sample_options title_count_schema)
              page_c) as (_ & _ & Hhook & _).
  destruct (Hhook eq_refl eq_refl Hnd [] "count" Hin eq_refl)
    as (vs & Hs & _ & Htype).
  exists vs. split; [exact Hs|].
  assert (Hne : "count" <> EmptyString) by discriminate.
  exact (Htype _ (mkAssertResult false "Number") Hne eq_refl eq_refl eq_refl
           eq_refl).
Defined.

(** C10 as it is worded fails in two ways.  An object that is deep-equal
    to the allowed element without being it gets no INVALID_VALUE when the
    entry asks for a string: the type check comes first and the one error is
    an INVALID_TYPE.  And an object that is deep-equal to one allowed element
    without being it gets no error at all when it is another allowed
    element. *)
Lemma deep_equal_value_without_invalid_value :
  deep_equal (sample_object 11) (sample_object 10) = true
  /\ strict_equal (sample_object 11) (sample_object 10) = false
  /\ extendPageData sample_host (sample_options string_shape_schema) page_f []
     = (Done tt, [("/f.md", [INVALID_TYPE "shape" "String" "object"])])
  /\ extendPageData sample_host (sample_options two_shapes_schema) page_f []
     = (Done tt, []).
Proof. repeat split. Qed.

Lemma allowed_values_compare_by_identity_witness :
  deep_equal (sample_object 11) (sample_object 10) = true
  /\ (forall a, In a [sample_object 10] ->
                strict_equal (sample_object 11) a = false)
  /\ fst (extendPageData sample_host (sample_options shape_schema) page_f [])
     = Done tt
  /\ exists vs expected,
       snd (extendPageData sample_host (sample_options shape_schema) page_f [])
       = record "/f.md" vs []
       /\ errors_about "shape" vs =
          [INVALID_VALUE "shape" expected (sample_object 11)].
Proof.
  assert (Hnone : forall a, In a [sample_object 10] ->
                            strict_equal (sample_object 11) a = false).
  { intros a [<-|[]]. reflexivity. }
  assert (Hnd : NoDup (Object_keys (frontmatter page_f))).
  { constructor; [intros []|constructor]. }
  assert (Hin : In "shape" (Object_keys (frontmatter page_f)))
    by (left; reflexivity).
  assert (Hne : "shape" <> EmptyString) by discriminate.
  split; [reflexivity|]. split; [exact Hnone|]. split; [reflexivity|].
  destruct (allowed_values_compare_by_identity sample_host
              (sample_options shape_schema) page_f [] "shape" _
              (mkAssertResult true "Object") [sample_object 10]
              eq_refl eq_refl Hnd Hin Hne eq_refl eq_refl eq_refl eq_refl
              eq_refl eq_refl)
    as (vs & Hs & Hinvalid & _).
  exists vs. eexists. split; [exact Hs|]. exact (Hinvalid Hnone).
Defined.
